(** * UMA protocol core: version negotiation, message model, codecs and
    signable payloads

    A shallow embedding of [uma/version.go] and [uma/protocol.go].

    Conventions of the embedding:
    - a Go [string] is a [string] (a sequence of bytes); [[]byte(s)] is
      [list_byte_of_string s];
    - [int64] and [int] (64 bits) are [Z]; where Go's arithmetic wraps, the
      wrap-around is written out;
    - a pointer field [*T] that is only tested against [nil] and read is an
      [option T];
    - a function returning [(T, error)] returns an [outcome T]; a run-time
      panic (nil dereference, index out of range) is the [Panic] outcome;
    - library functions ([strconv], [strings], [fmt], [net/url],
      [encoding/hex]) are modelled
      next to the code that calls them; [encoding/json] and the declarations
      of the package that live in other files are an interface ([Extern]). *)

From Stdlib Require Import ZArith Ascii String List Lia Bool Floats.
From stdpp Require Import base option list strings gmap sorting.

Local Open Scope Z_scope.

(** ** Errors and outcomes *)

(** The two sentinel errors of [strconv]. *)
Inductive strconv_Err : Type :=
| ErrSyntax
| ErrRange.

Inductive error : Type :=
| errors_New (msg : string)                               (* errors.New(msg) *)
| strconv_NumError (fn num : string) (e : strconv_Err)    (* *strconv.NumError *)
| io_EOF        (* io.EOF or io.ErrUnexpectedEOF: the input ended too early *)
| json_Error (msg : string).                              (* an error of encoding/json *)

Inductive outcome (A : Type) : Type :=
| Ok (a : A)
| Err (e : error)
| Panic (msg : string).
Arguments Ok {A} a.
Arguments Err {A} e.
Arguments Panic {A} msg.

Definition is_Ok {A} (r : outcome A) : bool :=
  match r with Ok _ => true | _ => false end.

Definition is_Err {A} (r : outcome A) : bool :=
  match r with Err _ => true | _ => false end.

Definition outcome_bind {A B} (r : outcome A) (k : A → outcome B) : outcome B :=
  match r with
  | Ok a => k a
  | Err e => Err e
  | Panic m => Panic m
  end.

(** A call that returns [(v, err)] and cannot panic. *)
Definition of_result {A} (r : error + A) : outcome A :=
  match r with
  | inl err => Err err
  | inr v => Ok v
  end.

(** [*p] for a pointer [p]. *)
Definition deref {A} (p : option A) : outcome A :=
  match p with
  | Some v => Ok v
  | None => Panic "invalid memory address or nil pointer dereference"
  end.

(** [p != nil]. *)
Definition notnil {A} (p : option A) : bool :=
  match p with
  | Some _ => true
  | None => false
  end.

(** [l[i]] for a slice [l]. *)
Definition index {A} (l : list A) (i : nat) : outcome A :=
  match l !! i with
  | Some v => Ok v
  | None => Panic "index out of range"
  end.

(** ** Bytes and characters *)

(** A [[]byte]. *)
Abbreviation bytes := (list Byte.byte).

#[global] Instance byte_eq_dec : EqDecision Byte.byte := Byte.byte_eq_dec.

Definition byte_code (c : ascii) : Z := Z.of_N (N_of_ascii c).
Definition byte_chr (n : Z) : ascii := ascii_of_N (Z.to_N n).

Definition dquote : string := String (byte_chr 34) EmptyString.
Definition newline : string := String (byte_chr 10) EmptyString.
Definition tab : string := String (byte_chr 9) EmptyString.

(** ** package strings *)

(** [strings.Join(elems, sep)]. *)
Fixpoint strings_Join (elems : list string) (sep : string) : string :=
  match elems with
  | [] => ""
  | [e] => e
  | e :: rest => e +:+ sep +:+ strings_Join rest sep
  end.

(** [strings.Split(s, sep)] for a separator of one byte, which is how both
    call sites use it (["@"] and ["."]): the pieces between the occurrences
    of [sep], in order; never the empty list. *)
Fixpoint strings_Split (s : string) (sep : ascii) : list string :=
  match s with
  | EmptyString => [EmptyString]
  | String c s' =>
      if decide (c = sep) then EmptyString :: strings_Split s' sep
      else match strings_Split s' sep with
           | [] => [String c EmptyString]
           | w :: ws => String c w :: ws
           end
  end.

(** ** package strconv *)

Definition maxUint64 : Z := 2 ^ 64 - 1.
Definition int64_range (z : Z) : Prop := - 2 ^ 63 ≤ z < 2 ^ 63.

Definition is_digit (c : ascii) : bool :=
  (48 <=? byte_code c) && (byte_code c <=? 57).

Definition digit_char (d : Z) : ascii := byte_chr (48 + d).

(** The digits of [n], most significant first, in front of [acc]
    ([formatBits], base 10); [fuel] bounds the number of digits. *)
Fixpoint format_digits (fuel : nat) (n : Z) (acc : string) : string :=
  let acc' := String (digit_char (n mod 10)) acc in
  match fuel with
  | O => acc'
  | S fuel' => if n <? 10 then acc' else format_digits fuel' (n / 10) acc'
  end.

(** [strconv.FormatUint(n, 10)]. *)
Definition strconv_FormatUint (n : Z) : string :=
  format_digits (Z.to_nat (Z.log2 n)) n "".

(** [strconv.FormatInt(i, 10)]. *)
Definition strconv_FormatInt (i : Z) : string :=
  if i <? 0 then String "-" (strconv_FormatUint (- i)) else strconv_FormatUint i.

(** [strconv.FormatBool]. *)
Definition strconv_FormatBool (b : bool) : string :=
  if b then "true" else "false".

(** The loop of [strconv.ParseUint(s, 10, 64)] from the accumulator [n]:
    the value and the sentinel error, if any. On a range error the value is
    [maxUint64]. *)
Fixpoint parseUint_loop (s : string) (n : Z) : Z * option strconv_Err :=
  match s with
  | EmptyString => (n, None)
  | String c s' =>
      if is_digit c then
        let d := byte_code c - 48 in
        if maxUint64 / 10 + 1 <=? n then (maxUint64, Some ErrRange)
        else
          let n' := n * 10 in
          let n1 := (n' + d) mod 2 ^ 64 in
          if (n1 <? n') || (maxUint64 <? n1) then (maxUint64, Some ErrRange)
          else parseUint_loop s' n1
      else (0, Some ErrSyntax)
  end.

Definition strconv_ParseUint (s : string) : Z * option strconv_Err :=
  match s with
  | EmptyString => (0, Some ErrSyntax)
  | _ => parseUint_loop s 0
  end.

(** [strconv.ParseInt(s, 10, 64)]: the value and the error. *)
Definition strconv_ParseInt (s0 : string) : Z * option error :=
  match s0 with
  | EmptyString => (0, Some (strconv_NumError "ParseInt" s0 ErrSyntax))
  | String c rest =>
      let '(neg, s) :=
        if decide (c = "+"%char) then (false, rest)
        else if decide (c = "-"%char) then (true, rest)
        else (false, s0) in
      let cutoff := 2 ^ 63 in
      match strconv_ParseUint s with
      | (_, Some ErrSyntax) => (0, Some (strconv_NumError "ParseInt" s0 ErrSyntax))
      | (un, _) =>
          if negb neg && (cutoff <=? un) then
            (cutoff - 1, Some (strconv_NumError "ParseInt" s0 ErrRange))
          else if neg && (cutoff <? un) then
            (- cutoff, Some (strconv_NumError "ParseInt" s0 ErrRange))
          else (if neg then - un else un, None)
      end
  end.


(** ** package fmt *)

(** [fmt.Sprintf("%d.%d", a, b)]. *)
Definition fmt_Sprintf_d_dot_d (a b : Z) : string :=
  strconv_FormatInt a +:+ "." +:+ strconv_FormatInt b.

(** The rest of [s] after the space rune it starts with, newline apart
    ([isSpace] of fmt/scan.go, on the UTF-8 encoding of the rune): U+0009,
    U+000B to U+000D, U+0020, U+0085, U+00A0, U+1680, U+2000 to U+200A, U+2028,
    U+2029, U+202F, U+205F and U+3000. *)
Definition skip_space_rune (s : string) : option string :=
  match s with
  | EmptyString => None
  | String c1 r1 =>
      let b1 := byte_code c1 in
      if (b1 =? 9) || ((11 <=? b1) && (b1 <=? 13)) || (b1 =? 32) then Some r1
      else match r1 with
           | EmptyString => None
           | String c2 r2 =>
               let b2 := byte_code c2 in
               if (b1 =? 194) && ((b2 =? 133) || (b2 =? 160)) then Some r2
               else match r2 with
                    | EmptyString => None
                    | String c3 r3 =>
                        let b3 := byte_code c3 in
                        if ((b1 =? 225) && (b2 =? 154) && (b3 =? 128))
                           || ((b1 =? 226) && (b2 =? 128)
                               && (((128 <=? b3) && (b3 <=? 138))
                                   || (b3 =? 168) || (b3 =? 169) || (b3 =? 175)))
                           || ((b1 =? 226) && (b2 =? 129) && (b3 =? 159))
                           || ((b1 =? 227) && (b2 =? 128) && (b3 =? 128))
                        then Some r3 else None
                    end
           end
  end.

(** [ss.SkipSpace] of a scan with a format ([nlIsSpace] is false): blanks
    are skipped, a newline among them is an error. Every step consumes a
    byte, so [String.length s] steps are enough. *)
Fixpoint SkipSpace_steps (steps : nat) (s : string) : outcome string :=
  match s with
  | EmptyString => Ok s
  | String c _ =>
      if byte_code c =? 10 then Err (errors_New "unexpected newline")
      else match skip_space_rune s with
           | None => Ok s
           | Some rest =>
               match steps with
               | O => Ok rest
               | S steps' => SkipSpace_steps steps' rest
               end
           end
  end.

Definition SkipSpace (s : string) : outcome string :=
  SkipSpace_steps (String.length s) s.

(** [decimalDigits], the runes [scanNumber] accepts for the verb [%d]. *)
Definition is_decimalDigit (c : ascii) : bool :=
  is_digit c || (byte_code c =? 95).

Definition is_sign (c : ascii) : bool :=
  (byte_code c =? 43) || (byte_code c =? 45).

(** [for s.accept(ok) {}]: the longest prefix of accepted bytes, and the rest. *)
Fixpoint accept_while (ok : ascii → bool) (s : string) : string * string :=
  match s with
  | EmptyString => (EmptyString, EmptyString)
  | String c s' =>
      if ok c then let '(tok, rest) := accept_while ok s' in (String c tok, rest)
      else (EmptyString, s)
  end.

(** [ss.scanInt('d', 64)] on the input [s]: the integer and the input
    left. *)
Definition scanInt (s : string) : outcome (Z * string) :=
  outcome_bind (SkipSpace s) (λ s1,
    match s1 with
    | EmptyString => Err io_EOF
    | String c r =>
        let '(sign, s2) :=
          if is_sign c then (String c EmptyString, r) else (EmptyString, s1) in
        match s2 with
        | EmptyString => Err io_EOF
        | String d _ =>
            if is_decimalDigit d then
              let '(digits, rest) := accept_while is_decimalDigit s2 in
              match strconv_ParseInt (sign +:+ digits) with
              | (i, None) => Ok (i, rest)
              | (_, Some e) => Err e
              end
            else Err (errors_New "expected integer")
        end
    end).

(** [fmt.Sscanf(str, "%d.%d", &a, &b)]: the two integers when the error is
    nil. Input after the second integer is left unread, which is no error. *)
Definition fmt_Sscanf_d_dot_d (str : string) : outcome (Z * Z) :=
  outcome_bind (scanInt str) (λ '(a, s1),
    match s1 with
    | EmptyString => Err io_EOF
    | String c s2 =>
        if byte_code c =? 46 then
          outcome_bind (scanInt s2) (λ '(b, _), Ok (a, b))
        else Err (errors_New "input does not match format")
    end).

(** ** version.go *)

Definition MAJOR_VERSION : Z := 1.
Definition MINOR_VERSION : Z := 0.

Definition backcompatVersions : list string := ["0.3"].

Definition UmaProtocolVersion : string :=
  fmt_Sprintf_d_dot_d MAJOR_VERSION MINOR_VERSION.

Record ParsedVersion : Type := {
  Major : Z;
  Minor : Z;
}.

Definition ParseVersion (version : string) : outcome ParsedVersion :=
  match fmt_Sscanf_d_dot_d version with
  | Ok (major, minor) => Ok {| Major := major; Minor := minor |}
  | Err err => Err err
  | Panic m => Panic m
  end.

Definition ParsedVersion_String (v : ParsedVersion) : string :=
  fmt_Sprintf_d_dot_d (Major v) (Minor v).

(** The set [map[int]struct{}] built by the loop over [backcompatVersions]. *)
Definition GetSupportedMajorVersions : gset Z :=
  foldl (λ (versions : gset Z) version,
           match ParseVersion version with
           | Ok parsedVersion => {[ Major parsedVersion ]} ∪ versions
           | _ => versions
           end)
        {[ MAJOR_VERSION ]} backcompatVersions.

(** The [for] loop of [GetHighestSupportedVersionForMajorVersion]. *)
Fixpoint first_backcompat (versions : list string) (majorVersion : Z)
  : option ParsedVersion :=
  match versions with
  | [] => None
  | version :: rest =>
      match ParseVersion version with
      | Ok parsedVersion =>
          if decide (Major parsedVersion = majorVersion) then Some parsedVersion
          else first_backcompat rest majorVersion
      | _ => first_backcompat rest majorVersion
      end
  end.

Definition GetHighestSupportedVersionForMajorVersion (majorVersion : Z)
  : option ParsedVersion :=
  if decide (majorVersion = MAJOR_VERSION) then
    match ParseVersion UmaProtocolVersion with
    | Ok parsedVersion => Some parsedVersion
    | _ => None
    end
  else first_backcompat backcompatVersions majorVersion.

(** One iteration of the loop of [SelectHighestSupportedVersion]. *)
Definition select_step (supportedMajorVersions : gset Z)
    (highestVersion : option ParsedVersion) (otherVaspMajorVersion : Z)
  : option ParsedVersion :=
  if decide (otherVaspMajorVersion ∈ supportedMajorVersions) then
    match highestVersion with
    | None => GetHighestSupportedVersionForMajorVersion otherVaspMajorVersion
    | Some highest =>
        if Major highest <? otherVaspMajorVersion
        then GetHighestSupportedVersionForMajorVersion otherVaspMajorVersion
        else highestVersion
    end
  else highestVersion.

Definition SelectHighestSupportedVersion
    (otherVaspSupportedMajorVersions : list Z) : option string :=
  let supportedMajorVersions := GetSupportedMajorVersions in
  let highestVersion :=
    foldl (select_step supportedMajorVersions) None
          otherVaspSupportedMajorVersions in
  match highestVersion with
  | None => None
  | Some v => Some (ParsedVersion_String v)
  end.

Definition SelectLowerVersion (version1String version2String : string)
  : outcome string :=
  outcome_bind (ParseVersion version1String) (λ version1,
  outcome_bind (ParseVersion version2String) (λ version2,
    if (Major version2 <? Major version1)
       || ((Major version1 =? Major version2) && (Minor version2 <? Minor version1))
    then Ok version2String
    else Ok version1String)).

Definition IsVersionSupported (version : string) : bool :=
  match ParseVersion version with
  | Ok parsedVersion => bool_decide (Major parsedVersion ∈ GetSupportedMajorVersions)
  | _ => false
  end.

(** ** package net/url *)

Record url_URL : Type := {
  URL_Scheme : string;
  URL_Host : string;
  URL_Path : string;
  URL_RawQuery : string;
}.

(** [url.Values], a [map[string][]string]. *)
Abbreviation url_Values := (gmap string (list string)).

(** [v.Add(key, value)]. *)
Definition Values_Add (key value : string) (v : url_Values) : url_Values :=
  <[ key := default [] (v !! key) ++ [value] ]> v.

Definition upperhex (n : Z) : ascii :=
  if n <? 10 then byte_chr (48 + n) else byte_chr (55 + n).

(** [shouldEscape(c, encodeQueryComponent)]: everything but letters, digits
    and [-], [_], [.], [~]. *)
Definition shouldEscape (c : ascii) : bool :=
  let b := byte_code c in
  negb (((97 <=? b) && (b <=? 122)) || ((65 <=? b) && (b <=? 90))
        || ((48 <=? b) && (b <=? 57))
        || (b =? 45) || (b =? 95) || (b =? 46) || (b =? 126)).

(** [url.QueryEscape]. *)
Fixpoint url_QueryEscape (s : string) : string :=
  match s with
  | EmptyString => EmptyString
  | String c rest =>
      let b := byte_code c in
      if b =? 32 then String "+" (url_QueryEscape rest)
      else if shouldEscape c then
        String "%" (String (upperhex (b / 16)) (String (upperhex (b mod 16))
                                                       (url_QueryEscape rest)))
      else String c (url_QueryEscape rest)
  end.

(** [v.Encode()]: the pairs [key=value], keys sorted, joined by [&]. *)
Definition Values_Encode (v : url_Values) : string :=
  let keys := merge_sort String.le (map fst (map_to_list v)) in
  foldl (λ buf k,
           let keyEscaped := url_QueryEscape k in
           foldl (λ buf value,
                    (if decide (buf = EmptyString) then buf else buf +:+ "&")
                    +:+ keyEscaped +:+ "=" +:+ url_QueryEscape value)
                 buf (default [] (v !! k)))
        EmptyString keys.

(** ** package time *)

(** A [time.Time], as far as the package looks at it: the seconds since the
    Unix epoch and the nanoseconds within the second. *)
Record time_Time : Type := {
  time_sec : Z;
  time_nsec : Z;
}.

(** [t.Unix()]. *)
Definition time_Unix (t : time_Time) : Z := time_sec t.

(** ** package encoding/json *)

(** The values [json.Unmarshal] stores in an [interface{}]. *)
#[warnings="-register-all"]
Inductive any : Type :=
| any_nil
| any_bool (b : bool)
| any_float64 (f : float)
| any_string (s : string)
| any_slice (l : list any)
| any_map (m : gmap string any).

(** [v.(string)] for a looked-up map entry ([None] when the key is missing). *)
Definition as_string (v : option any) : option string :=
  match v with
  | Some (any_string s) => Some s
  | _ => None
  end.

(** [v.(map[string]interface{})]. *)
Definition as_map (v : option any) : option (gmap string any) :=
  match v with
  | Some (any_map m) => Some m
  | _ => None
  end.

(** ** What protocol.go uses and does not declare

    The types of the package declared in its other files, the fields and
    methods of theirs that protocol.go reads, [IsDomainLocalhost], and the
    calls of [encoding/json]. *)
Class Extern : Type := {
  KycStatus : Type;
  Currency : Type;
  CounterPartyDataOptions : Type;
  PayerData : Type;
  CompliancePayerData : Type;
  CompliancePayeeData : Type;
  CompliancePayerData_SignatureNonce : CompliancePayerData → string;
  CompliancePayerData_SignatureTimestamp : CompliancePayerData → Z;
  CompliancePayeeData_SignatureNonce : CompliancePayeeData → string;
  CompliancePayeeData_SignatureTimestamp : CompliancePayeeData → Z;
  (* the method Identifier of PayerData: a string pointer *)
  PayerData_Identifier : PayerData → option string;
  (* the method Compliance of PayerData: a pointer and an error *)
  PayerData_Compliance : PayerData → error + option CompliancePayerData;
  IsDomainLocalhost : string → bool;
  (* json.Unmarshal(data, &rawReq), rawReq a nil map[string]interface{} *)
  json_Unmarshal_rawReq : bytes → error + gmap string any;
  (* json.Marshal of a map[string]interface{} *)
  json_Marshal_map : gmap string any → error + bytes;
  json_Marshal_PayerData : PayerData → error + bytes;
  json_Unmarshal_PayerData : bytes → error + PayerData;
  json_Marshal_CounterPartyDataOptions : CounterPartyDataOptions → error + bytes;
  json_Unmarshal_CounterPartyDataOptions : bytes → error + CounterPartyDataOptions;
}.

(** ** Methods that update their receiver

    [stateful S A] is a method with a pointer receiver of type [S]: from the
    receiver's value to its value at the return and what is returned. An
    early [return err] keeps the updates made before it. *)
Definition stateful (S A : Type) : Type := S → S * outcome A.

Definition st_lift {S A} (r : outcome A) : stateful S A := λ s, (s, r).

Definition st_fail {S A} (err : error) : stateful S A := st_lift (Err err).

Definition st_modify {S} (f : S → S) : stateful S unit := λ s, (f s, Ok ()).

#[global] Instance stateful_ret {S} : MRet (stateful S) :=
  λ A a s, (s, Ok a).

#[global] Instance stateful_bind {S} : MBind (stateful S) :=
  λ A B k m s,
    match m s with
    | (s', Ok a) => k a s'
    | (s', Err e) => (s', Err e)
    | (s', Panic msg) => (s', Panic msg)
    end.

#[global] Instance outcome_ret : MRet outcome := λ A a, Ok a.

#[global] Instance outcome_mbind : MBind outcome := λ A B k m, outcome_bind m k.

(** ** protocol.go: the capability request *)

Record LnurlpRequest : Type := {
  LnurlpRequest_ReceiverAddress : string;
  LnurlpRequest_Nonce : option string;
  LnurlpRequest_Signature : option string;
  LnurlpRequest_IsSubjectToTravelRule : option bool;
  LnurlpRequest_VaspDomain : option string;
  LnurlpRequest_Timestamp : option time_Time;
  LnurlpRequest_UmaVersion : option string;
}.

Record UmaLnurlpRequest : Type := {
  UmaLnurlpRequest_LnurlpRequest : LnurlpRequest;   (* the embedded struct *)
  UmaLnurlpRequest_ReceiverAddress : string;
  UmaLnurlpRequest_Nonce : string;
  UmaLnurlpRequest_Signature : string;
  UmaLnurlpRequest_IsSubjectToTravelRule : bool;
  UmaLnurlpRequest_VaspDomain : string;
  UmaLnurlpRequest_Timestamp : time_Time;
  UmaLnurlpRequest_UmaVersion : string;
}.

Definition LnurlpRequest_IsUmaRequest (q : LnurlpRequest) : bool :=
  notnil (LnurlpRequest_VaspDomain q)
  && notnil (LnurlpRequest_Nonce q)
  && notnil (LnurlpRequest_Signature q)
  && notnil (LnurlpRequest_Timestamp q)
  && notnil (LnurlpRequest_UmaVersion q).

(** [AsUmaRequest]: [Ok None] is the nil pointer returned for a request that
    is not an UMA request. *)
Definition LnurlpRequest_AsUmaRequest (q : LnurlpRequest)
  : outcome (option UmaLnurlpRequest) :=
  if negb (LnurlpRequest_IsUmaRequest q) then Ok None
  else
    nonce ← deref (LnurlpRequest_Nonce q);
    signature ← deref (LnurlpRequest_Signature q);
    let isSubjectToTravelRule :=
      match LnurlpRequest_IsSubjectToTravelRule q with
      | Some b => b
      | None => false
      end in
    vaspDomain ← deref (LnurlpRequest_VaspDomain q);
    timestamp ← deref (LnurlpRequest_Timestamp q);
    umaVersion ← deref (LnurlpRequest_UmaVersion q);
    Ok (Some {| UmaLnurlpRequest_LnurlpRequest := q;
                UmaLnurlpRequest_ReceiverAddress := LnurlpRequest_ReceiverAddress q;
                UmaLnurlpRequest_Nonce := nonce;
                UmaLnurlpRequest_Signature := signature;
                UmaLnurlpRequest_IsSubjectToTravelRule := isSubjectToTravelRule;
                UmaLnurlpRequest_VaspDomain := vaspDomain;
                UmaLnurlpRequest_Timestamp := timestamp;
                UmaLnurlpRequest_UmaVersion := umaVersion |}).

Definition LnurlpRequest_signablePayload (q : LnurlpRequest) : outcome bytes :=
  match LnurlpRequest_Timestamp q, LnurlpRequest_Nonce q with
  | Some timestamp, Some nonce =>
      let payloadString :=
        strings_Join [LnurlpRequest_ReceiverAddress q; nonce;
                      strconv_FormatInt (time_Unix timestamp)] "|" in
      Ok (list_byte_of_string payloadString)
  | _, _ => Err (errors_New "timestamp and nonce are required for signing")
  end.

(** ** protocol.go: the post-transaction callback *)

Record UtxoWithAmount : Type := {
  UtxoWithAmount_Utxo : string;
  UtxoWithAmount_Amount : Z;
}.

Record PostTransactionCallback : Type := {
  PostTransactionCallback_Utxos : list UtxoWithAmount;
  PostTransactionCallback_VaspDomain : string;
  PostTransactionCallback_Signature : string;
  PostTransactionCallback_Nonce : string;
  PostTransactionCallback_Timestamp : Z;
}.

Definition PostTransactionCallback_signablePayload (c : PostTransactionCallback)
  : bytes :=
  let payloadString :=
    strings_Join [PostTransactionCallback_Nonce c;
                  strconv_FormatInt (PostTransactionCallback_Timestamp c)] "|" in
  list_byte_of_string payloadString.

Section Protocol.
Context `{Extern}.

Definition LnurlpRequest_EncodeToUrl (q : LnurlpRequest) : outcome url_URL :=
  let receiverAddressParts := strings_Split (LnurlpRequest_ReceiverAddress q) "@" in
  if negb (length receiverAddressParts =? 2)%nat then
    Err (errors_New "invalid receiver address")
  else
    host ← index receiverAddressParts 1;
    let scheme := "https" in
    let scheme := if IsDomainLocalhost host then "http" else scheme in
    localpart ← index receiverAddressParts 0;
    let path := "/.well-known/lnurlp/" +:+ localpart in
    let queryParams : url_Values := ∅ in
    queryParams ←
      (if LnurlpRequest_IsUmaRequest q then
         signature ← deref (LnurlpRequest_Signature q);
         let queryParams := Values_Add "signature" signature queryParams in
         vaspDomain ← deref (LnurlpRequest_VaspDomain q);
         let queryParams := Values_Add "vaspDomain" vaspDomain queryParams in
         nonce ← deref (LnurlpRequest_Nonce q);
         let queryParams := Values_Add "nonce" nonce queryParams in
         isSubjectToTravelRule ← deref (LnurlpRequest_IsSubjectToTravelRule q);
         let queryParams :=
           Values_Add "isSubjectToTravelRule"
                      (strconv_FormatBool isSubjectToTravelRule) queryParams in
         timestamp ← deref (LnurlpRequest_Timestamp q);
         let queryParams :=
           Values_Add "timestamp" (strconv_FormatInt (time_Unix timestamp))
                      queryParams in
         umaVersion ← deref (LnurlpRequest_UmaVersion q);
         Ok (Values_Add "umaVersion" umaVersion queryParams)
       else Ok queryParams);
    Ok {| URL_Scheme := scheme;
          URL_Host := host;
          URL_Path := path;
          URL_RawQuery := Values_Encode queryParams |}.

(** ** protocol.go: the capability response *)

Record LnurlComplianceResponse : Type := {
  LnurlComplianceResponse_KycStatus : KycStatus;
  LnurlComplianceResponse_Signature : string;
  LnurlComplianceResponse_Nonce : string;
  LnurlComplianceResponse_Timestamp : Z;
  LnurlComplianceResponse_IsSubjectToTravelRule : bool;
  LnurlComplianceResponse_ReceiverIdentifier : string;
}.

Record LnurlpResponse : Type := {
  LnurlpResponse_Tag : string;
  LnurlpResponse_Callback : string;
  LnurlpResponse_MinSendable : Z;
  LnurlpResponse_MaxSendable : Z;
  LnurlpResponse_EncodedMetadata : string;
  LnurlpResponse_Currencies : option (list Currency);
  LnurlpResponse_RequiredPayerData : option CounterPartyDataOptions;
  LnurlpResponse_Compliance : option LnurlComplianceResponse;
  LnurlpResponse_UmaVersion : option string;
  LnurlpResponse_CommentCharsAllowed : option Z;
  LnurlpResponse_NostrPubkey : option string;
  LnurlpResponse_AllowsNostr : option bool;
}.

Record UmaLnurlpResponse : Type := {
  UmaLnurlpResponse_LnurlpResponse : LnurlpResponse;   (* the embedded struct *)
  UmaLnurlpResponse_Currencies : list Currency;
  UmaLnurlpResponse_RequiredPayerData : CounterPartyDataOptions;
  UmaLnurlpResponse_Compliance : LnurlComplianceResponse;
  UmaLnurlpResponse_UmaVersion : string;
  UmaLnurlpResponse_CommentCharsAllowed : option Z;
  UmaLnurlpResponse_NostrPubkey : option string;
  UmaLnurlpResponse_AllowsNostr : option bool;
}.

Definition LnurlpResponse_IsUmaResponse (r : LnurlpResponse) : bool :=
  match LnurlpResponse_Compliance r, LnurlpResponse_UmaVersion r,
        LnurlpResponse_Currencies r, LnurlpResponse_RequiredPayerData r with
  | Some _, Some _, Some _, Some _ => true
  | _, _, _, _ => false
  end.

Definition LnurlpResponse_AsUmaResponse (r : LnurlpResponse)
  : outcome (option UmaLnurlpResponse) :=
  if negb (LnurlpResponse_IsUmaResponse r) then Ok None
  else
    currencies ← deref (LnurlpResponse_Currencies r);
    requiredPayerData ← deref (LnurlpResponse_RequiredPayerData r);
    compliance ← deref (LnurlpResponse_Compliance r);
    umaVersion ← deref (LnurlpResponse_UmaVersion r);
    Ok (Some {| UmaLnurlpResponse_LnurlpResponse := r;
                UmaLnurlpResponse_Currencies := currencies;
                UmaLnurlpResponse_RequiredPayerData := requiredPayerData;
                UmaLnurlpResponse_Compliance := compliance;
                UmaLnurlpResponse_UmaVersion := umaVersion;
                UmaLnurlpResponse_CommentCharsAllowed :=
                  LnurlpResponse_CommentCharsAllowed r;
                UmaLnurlpResponse_NostrPubkey := LnurlpResponse_NostrPubkey r;
                UmaLnurlpResponse_AllowsNostr := LnurlpResponse_AllowsNostr r |}).

Definition UmaLnurlpResponse_signablePayload (r : UmaLnurlpResponse) : bytes :=
  let payloadString :=
    strings_Join
      [LnurlComplianceResponse_ReceiverIdentifier (UmaLnurlpResponse_Compliance r);
       LnurlComplianceResponse_Nonce (UmaLnurlpResponse_Compliance r);
       strconv_FormatInt
         (LnurlComplianceResponse_Timestamp (UmaLnurlpResponse_Compliance r))]
      "|" in
  list_byte_of_string payloadString.

(** ** protocol.go: the invoice request *)

Record PayRequest : Type := {
  PayRequest_SendingAmountCurrencyCode : option string;
  PayRequest_ReceivingCurrencyCode : option string;
  PayRequest_Amount : Z;
  PayRequest_PayerData : option PayerData;
  PayRequest_RequestedPayeeData : option CounterPartyDataOptions;
  PayRequest_Comment : option string;
}.

(** The assignments to the fields of the receiver [p]. *)
Definition set_SendingAmountCurrencyCode (v : option string) (p : PayRequest) :=
  {| PayRequest_SendingAmountCurrencyCode := v;
     PayRequest_ReceivingCurrencyCode := PayRequest_ReceivingCurrencyCode p;
     PayRequest_Amount := PayRequest_Amount p;
     PayRequest_PayerData := PayRequest_PayerData p;
     PayRequest_RequestedPayeeData := PayRequest_RequestedPayeeData p;
     PayRequest_Comment := PayRequest_Comment p |}.

Definition set_ReceivingCurrencyCode (v : option string) (p : PayRequest) :=
  {| PayRequest_SendingAmountCurrencyCode := PayRequest_SendingAmountCurrencyCode p;
     PayRequest_ReceivingCurrencyCode := v;
     PayRequest_Amount := PayRequest_Amount p;
     PayRequest_PayerData := PayRequest_PayerData p;
     PayRequest_RequestedPayeeData := PayRequest_RequestedPayeeData p;
     PayRequest_Comment := PayRequest_Comment p |}.

Definition set_Amount (v : Z) (p : PayRequest) :=
  {| PayRequest_SendingAmountCurrencyCode := PayRequest_SendingAmountCurrencyCode p;
     PayRequest_ReceivingCurrencyCode := PayRequest_ReceivingCurrencyCode p;
     PayRequest_Amount := v;
     PayRequest_PayerData := PayRequest_PayerData p;
     PayRequest_RequestedPayeeData := PayRequest_RequestedPayeeData p;
     PayRequest_Comment := PayRequest_Comment p |}.

Definition set_PayerData (v : option PayerData) (p : PayRequest) :=
  {| PayRequest_SendingAmountCurrencyCode := PayRequest_SendingAmountCurrencyCode p;
     PayRequest_ReceivingCurrencyCode := PayRequest_ReceivingCurrencyCode p;
     PayRequest_Amount := PayRequest_Amount p;
     PayRequest_PayerData := v;
     PayRequest_RequestedPayeeData := PayRequest_RequestedPayeeData p;
     PayRequest_Comment := PayRequest_Comment p |}.

Definition set_RequestedPayeeData (v : option CounterPartyDataOptions)
    (p : PayRequest) :=
  {| PayRequest_SendingAmountCurrencyCode := PayRequest_SendingAmountCurrencyCode p;
     PayRequest_ReceivingCurrencyCode := PayRequest_ReceivingCurrencyCode p;
     PayRequest_Amount := PayRequest_Amount p;
     PayRequest_PayerData := PayRequest_PayerData p;
     PayRequest_RequestedPayeeData := v;
     PayRequest_Comment := PayRequest_Comment p |}.

Definition set_Comment (v : option string) (p : PayRequest) :=
  {| PayRequest_SendingAmountCurrencyCode := PayRequest_SendingAmountCurrencyCode p;
     PayRequest_ReceivingCurrencyCode := PayRequest_ReceivingCurrencyCode p;
     PayRequest_Amount := PayRequest_Amount p;
     PayRequest_PayerData := PayRequest_PayerData p;
     PayRequest_RequestedPayeeData := PayRequest_RequestedPayeeData p;
     PayRequest_Comment := v |}.

(** The zero value, [var p PayRequest]. *)
Definition PayRequest_zero : PayRequest :=
  {| PayRequest_SendingAmountCurrencyCode := None;
     PayRequest_ReceivingCurrencyCode := None;
     PayRequest_Amount := 0;
     PayRequest_PayerData := None;
     PayRequest_RequestedPayeeData := None;
     PayRequest_Comment := None |}.

Definition PayRequest_IsUmaRequest (p : PayRequest) : bool :=
  match PayRequest_PayerData p with
  | None => false
  | Some payerData =>
      match PayerData_Compliance payerData with
      | inl _ => false
      | inr compliance =>
          notnil compliance && notnil (PayerData_Identifier payerData)
      end
  end.

Definition PayRequest_MarshalJSON (p : PayRequest) : outcome bytes :=
  let amount := strconv_FormatInt (PayRequest_Amount p) in
  let amount :=
    match PayRequest_SendingAmountCurrencyCode p with
    | Some code => amount +:+ "." +:+ code
    | None => amount
    end in
  payerDataJson ←
    match PayRequest_PayerData p with
    | Some payerData => of_result (json_Marshal_PayerData payerData)
    | None => Ok []
    end;
  let reqStr :=
    "{" +:+ newline +:+ tab +:+ tab +:+ dquote +:+ "amount" +:+ dquote +:+ ": "
        +:+ dquote +:+ amount +:+ dquote in
  let reqStr :=
    match PayRequest_ReceivingCurrencyCode p with
    | Some code =>
        reqStr +:+ "," +:+ newline +:+ tab +:+ tab +:+ dquote +:+ "convert"
               +:+ dquote +:+ ": " +:+ dquote +:+ code +:+ dquote
    | None => reqStr
    end in
  let reqStr :=
    match PayRequest_PayerData p with
    | Some _ =>
        reqStr +:+ "," +:+ newline +:+ tab +:+ tab +:+ dquote +:+ "payerData"
               +:+ dquote +:+ ": " +:+ string_of_list_byte payerDataJson
    | None => reqStr
    end in
  reqStr ←
    match PayRequest_RequestedPayeeData p with
    | Some requestedPayeeData =>
        payeeDataJson ←
          of_result (json_Marshal_CounterPartyDataOptions requestedPayeeData);
        Ok (reqStr +:+ "," +:+ newline +:+ tab +:+ tab +:+ dquote +:+ "payeeData"
                   +:+ dquote +:+ ": " +:+ string_of_list_byte payeeDataJson)
    | None => Ok reqStr
    end;
  let reqStr :=
    match PayRequest_Comment p with
    | Some comment =>
        reqStr +:+ "," +:+ newline +:+ tab +:+ tab +:+ dquote +:+ "comment"
               +:+ dquote +:+ ": " +:+ dquote +:+ comment +:+ dquote
    | None => reqStr
    end in
  let reqStr := reqStr +:+ "}" in
  Ok (list_byte_of_string reqStr).

Definition PayRequest_UnmarshalJSON (data : bytes) : stateful PayRequest unit :=
  rawReq ← st_lift (of_result (json_Unmarshal_rawReq data));
  match as_string (rawReq !! "convert") with
  | Some convert => st_modify (set_ReceivingCurrencyCode (Some convert))
  | None => mret ()
  end;;
  amount ←
    match as_string (rawReq !! "amount") with
    | Some amount => mret amount
    | None => st_fail (errors_New "missing or invalid amount field")
    end;
  let amountParts := strings_Split amount "." in
  if (2 <? length amountParts)%nat then
    st_fail (errors_New "invalid amount field")
  else
    part0 ← st_lift (index amountParts 0);
    let '(value, err) := strconv_ParseInt part0 in
    st_modify (set_Amount value);;
    match err with
    | Some err => st_fail err
    | None => mret ()
    end;;
    (if (length amountParts =? 2)%nat then
       part1 ← st_lift (index amountParts 1);
       if (0 <? String.length part1)%nat
       then st_modify (set_SendingAmountCurrencyCode (Some part1))
       else mret ()
     else mret ());;
    match as_map (rawReq !! "payerData") with
    | Some payerDataJson =>
        payerDataJsonBytes ← st_lift (of_result (json_Marshal_map payerDataJson));
        payerData ← st_lift (of_result (json_Unmarshal_PayerData payerDataJsonBytes));
        st_modify (set_PayerData (Some payerData))
    | None => mret ()
    end;;
    match as_map (rawReq !! "payeeData") with
    | Some payeeDataJson =>
        payeeDataJsonBytes ← st_lift (of_result (json_Marshal_map payeeDataJson));
        payeeData ←
          st_lift (of_result (json_Unmarshal_CounterPartyDataOptions payeeDataJsonBytes));
        st_modify (set_RequestedPayeeData (Some payeeData))
    | None => mret ()
    end;;
    match as_string (rawReq !! "comment") with
    | Some comment => st_modify (set_Comment (Some comment))
    | None => mret ()
    end.

(** The last three blocks of [UnmarshalJSON] (payer data, payee data,
    comment) on their own, as the proofs split them off
    ([PayRequest_UnmarshalJSON_unfold]). *)
Definition PayRequest_UnmarshalJSON_rest (rawReq : gmap string any)
  : stateful PayRequest unit :=
  match as_map (rawReq !! "payerData") with
  | Some payerDataJson =>
      payerDataJsonBytes ← st_lift (of_result (json_Marshal_map payerDataJson));
      payerData ← st_lift (of_result (json_Unmarshal_PayerData payerDataJsonBytes));
      st_modify (set_PayerData (Some payerData))
  | None => mret ()
  end;;
  match as_map (rawReq !! "payeeData") with
  | Some payeeDataJson =>
      payeeDataJsonBytes ← st_lift (of_result (json_Marshal_map payeeDataJson));
      payeeData ←
        st_lift (of_result (json_Unmarshal_CounterPartyDataOptions payeeDataJsonBytes));
      st_modify (set_RequestedPayeeData (Some payeeData))
  | None => mret ()
  end;;
  match as_string (rawReq !! "comment") with
  | Some comment => st_modify (set_Comment (Some comment))
  | None => mret ()
  end.

Definition PayRequest_signablePayload (p : PayRequest) : outcome bytes :=
  match PayRequest_PayerData p with
  | None => Err (errors_New "payer data is missing")
  | Some payerData =>
      match PayerData_Identifier payerData with
      | None => Err (errors_New "payer data identifier is missing")
      | Some senderAddress =>
          if decide (senderAddress = "") then
            Err (errors_New "payer data identifier is missing")
          else
            match PayerData_Compliance payerData with
            | inl err => Err err
            | inr None => Err (errors_New "compliance payer data is missing")
            | inr (Some complianceData) =>
                let signatureNonce :=
                  CompliancePayerData_SignatureNonce complianceData in
                let signatureTimestamp :=
                  CompliancePayerData_SignatureTimestamp complianceData in
                let payloadString :=
                  strings_Join [senderAddress; signatureNonce;
                                strconv_FormatInt signatureTimestamp] "|" in
                Ok (list_byte_of_string payloadString)
            end
      end
  end.

(** ** protocol.go: payee compliance data *)

(** The receiver [c] is a pointer and may be nil. *)
Definition CompliancePayeeData_signablePayload (c : option CompliancePayeeData)
    (payerIdentifier payeeIdentifier : string) : outcome bytes :=
  match c with
  | None => Err (errors_New "compliance data is missing")
  | Some c =>
      let payloadString :=
        strings_Join [payerIdentifier; payeeIdentifier;
                      CompliancePayeeData_SignatureNonce c;
                      strconv_FormatInt (CompliancePayeeData_SignatureTimestamp c)]
                     "|" in
      Ok (list_byte_of_string payloadString)
  end.

End Protocol.

(** ** A sample implementation of the interface

    Used to run the model on concrete inputs. Payer data is what its two
    methods return; the JSON decoder knows the documents listed in
    [sample_documents], with the object [encoding/json] decodes each to, and
    rejects every other input. *)
Module Sample.

Record compliance : Type := {
  SignatureNonce : string;
  SignatureTimestamp : Z;
}.

Record payerData : Type := {
  identifier : option string;
  complianceData : error + option compliance;
}.

Definition quoted (s : string) : string := dquote +:+ s +:+ dquote.

(** The document [{"key": "value"}]. *)
Definition doc1 (key value : string) : bytes :=
  list_byte_of_string ("{" +:+ quoted key +:+ ": " +:+ quoted value +:+ "}").

(** The document [{"k1": "v1", "k2": "v2"}]. *)
Definition doc2 (k1 v1 k2 v2 : string) : bytes :=
  list_byte_of_string ("{" +:+ quoted k1 +:+ ": " +:+ quoted v1 +:+ ", "
                           +:+ quoted k2 +:+ ": " +:+ quoted v2 +:+ "}").

(** What [PayRequest.MarshalJSON] writes for an amount field alone. *)
Definition doc_amount (amount : string) : bytes :=
  list_byte_of_string ("{" +:+ newline +:+ tab +:+ tab +:+ quoted "amount" +:+ ": "
                           +:+ quoted amount +:+ "}").

Definition sample_documents : list (bytes * gmap string any) :=
  [ (doc_amount "1000.USD", {[ "amount" := any_string "1000.USD" ]});
    (doc1 "amount" "1000.USD", {[ "amount" := any_string "1000.USD" ]});
    (doc1 "amount" "1000", {[ "amount" := any_string "1000" ]});
    (doc1 "amount" "1000.", {[ "amount" := any_string "1000." ]});
    (doc1 "amount" "1000.USD.EUR", {[ "amount" := any_string "1000.USD.EUR" ]});
    (doc1 "amount" "12x", {[ "amount" := any_string "12x" ]});
    (doc1 "convert" "USD", {[ "convert" := any_string "USD" ]});
    (doc2 "convert" "EUR" "amount" "12x",
     <[ "convert" := any_string "EUR" ]> {[ "amount" := any_string "12x" ]}) ].

Fixpoint lookup_document (data : bytes) (table : list (bytes * gmap string any))
  : error + gmap string any :=
  match table with
  | [] => inl (json_Error "not a sample document")
  | (doc, object) :: rest =>
      if decide (data = doc) then inr object else lookup_document data rest
  end.

#[global] Instance extern : Extern := {|
  KycStatus := unit;
  Currency := unit;
  CounterPartyDataOptions := unit;
  PayerData := payerData;
  CompliancePayerData := compliance;
  CompliancePayeeData := compliance;
  CompliancePayerData_SignatureNonce := SignatureNonce;
  CompliancePayerData_SignatureTimestamp := SignatureTimestamp;
  CompliancePayeeData_SignatureNonce := SignatureNonce;
  CompliancePayeeData_SignatureTimestamp := SignatureTimestamp;
  PayerData_Identifier := identifier;
  PayerData_Compliance := complianceData;
  IsDomainLocalhost := λ domain, bool_decide (domain = "localhost");
  json_Unmarshal_rawReq := λ data, lookup_document data sample_documents;
  json_Marshal_map := λ _, inl (json_Error "not a sample document");
  json_Marshal_PayerData := λ _, inl (json_Error "not a sample document");
  json_Unmarshal_PayerData := λ _, inl (json_Error "not a sample document");
  json_Marshal_CounterPartyDataOptions := λ _, inl (json_Error "not a sample document");
  json_Unmarshal_CounterPartyDataOptions := λ _, inl (json_Error "not a sample document");
|}.

Definition request_1000_USD : PayRequest :=
  set_Amount 1000 (set_SendingAmountCurrencyCode (Some "USD") PayRequest_zero).

Definition capability_request : LnurlpRequest :=
  {| LnurlpRequest_ReceiverAddress := "alice@vasp.com";
     LnurlpRequest_Nonce := Some "abc";
     LnurlpRequest_Signature := Some "c2ln";
     LnurlpRequest_IsSubjectToTravelRule := Some true;
     LnurlpRequest_VaspDomain := Some "vasp1.com";
     LnurlpRequest_Timestamp := Some {| time_sec := 1700000000; time_nsec := 0 |};
     LnurlpRequest_UmaVersion := Some "1.0" |}.

(** The same request with the travel-rule flag left out. *)
Definition capability_request_no_flag : LnurlpRequest :=
  {| LnurlpRequest_ReceiverAddress := "alice@vasp.com";
     LnurlpRequest_Nonce := Some "abc";
     LnurlpRequest_Signature := Some "c2ln";
     LnurlpRequest_IsSubjectToTravelRule := None;
     LnurlpRequest_VaspDomain := Some "vasp1.com";
     LnurlpRequest_Timestamp := Some {| time_sec := 1700000000; time_nsec := 0 |};
     LnurlpRequest_UmaVersion := Some "1.0" |}.

(** An invoice request whose payer data has an identifier and a compliance
    block that cannot be read. *)
Definition request_unreadable_compliance : PayRequest :=
  set_PayerData
    (Some {| identifier := Some "alice@vasp.com";
             complianceData := inl (json_Error "cannot unmarshal compliance") |})
    PayRequest_zero.

(** A callback with an empty nonce. *)
Definition callback_empty_nonce : PostTransactionCallback :=
  {| PostTransactionCallback_Utxos := [];
     PostTransactionCallback_VaspDomain := "vasp1.com";
     PostTransactionCallback_Signature := "c2ln";
     PostTransactionCallback_Nonce := "";
     PostTransactionCallback_Timestamp := 1700000000 |}.

End Sample.

(** ** Predicates and functions of the specification

    These follow the words of the specification, not the code; the theorems
    below compare the code with them. *)

(** Where the scan of a number stops: at the end of the input or at a byte
    that is no decimal digit. *)
Definition stops_number (rest : string) : Prop :=
  match rest with
  | EmptyString => True
  | String c _ => is_decimalDigit c = false
  end.

(** The byte [c] occurs in [s]. *)
Fixpoint contains_byte (c : ascii) (s : string) : bool :=
  match s with
  | EmptyString => false
  | String d rest => bool_decide (d = c) || contains_byte c rest
  end.

(** A non-empty run of decimal digits: a non-negative integer in base 10. *)
Definition is_decimal (s : string) : bool :=
  negb (bool_decide (s = EmptyString))
  && forallb is_digit (list_ascii_of_string s).

(** The shape "major.minor" for non-negative integers. *)
Definition is_major_minor (s : string) : bool :=
  match strings_Split s "." with
  | [major; minor] => is_decimal major && is_decimal minor
  | _ => false
  end.

(** A base-10 integer: an optional sign and a non-empty run of digits. *)
Definition is_base10_integer (s : string) : bool :=
  match s with
  | EmptyString => false
  | String c rest => if is_sign c then is_decimal rest else is_decimal s
  end.

(** The hybrid amount field: the amount in decimal, followed by ['.'] and the
    currency code when there is one. *)
Definition spec_amount_field (amount : Z) (code : option string) : string :=
  match code with
  | Some code => strconv_FormatInt amount +:+ "." +:+ code
  | None => strconv_FormatInt amount
  end.

(** The text [MarshalJSON] writes up to the amount. *)
Definition amount_key : string :=
  "{" +:+ newline +:+ tab +:+ tab +:+ dquote +:+ "amount" +:+ dquote +:+ ": "
      +:+ dquote.

(** The six query parameters of an UMA request, added in the order of the
    code. *)
Definition uma_queryParams (signature vaspDomain nonce : string)
    (isSubjectToTravelRule : bool) (timestamp : time_Time) (umaVersion : string)
  : url_Values :=
  Values_Add "umaVersion" umaVersion
    (Values_Add "timestamp" (strconv_FormatInt (time_Unix timestamp))
       (Values_Add "isSubjectToTravelRule"
          (strconv_FormatBool isSubjectToTravelRule)
          (Values_Add "nonce" nonce
             (Values_Add "vaspDomain" vaspDomain
                (Values_Add "signature" signature ∅))))).

(** The order on versions: by (major, minor), major first. *)
Definition version_lt (v w : ParsedVersion) : bool :=
  (Major v <? Major w) || ((Major v =? Major w) && (Minor v <? Minor w)).

(** [selectHighestMutual]: the counterparty's majors that are supported, and
    the version of the greatest of them. *)
Definition spec_selectHighestMutual (counterpartyMajors : list Z) : option string :=
  match filter (λ m, m ∈ GetSupportedMajorVersions) counterpartyMajors with
  | [] => None
  | m :: ms =>
      ParsedVersion_String
        <$> GetHighestSupportedVersionForMajorVersion (foldl Z.max m ms)
  end.

(** ** version.go: the supported majors of an error response *)

(** [json.Unmarshal(errorResponseBody, &responseJson)] for a
    [map[string]string], the one call of [encoding/json] in version.go. *)
Class ExternVersion : Type := {
  json_Unmarshal_responseJson : bytes → error + gmap string string;
}.

(** [strconv.Atoi(s)] for a 64-bit [int]: the value and the error of
    [ParseInt(s, 10, 0)], the error renamed to Atoi (the fast path for short
    strings returns the same). *)
Definition strconv_Atoi (s : string) : Z * option error :=
  match strconv_ParseInt s with
  | (i, Some (strconv_NumError _ num e)) => (i, Some (strconv_NumError "Atoi" num e))
  | (i, err) => (i, err)
  end.

(** The loop of [GetSupportedMajorVersionsFromErrorResponseBody]: every piece
    converted in order, the first error returned. *)
Fixpoint atoi_each (versions : list string) : outcome (list Z) :=
  match versions with
  | [] => Ok []
  | version :: rest =>
      match strconv_Atoi version with
      | (_, Some err) => Err err
      | (versionInt, None) =>
          outcome_bind (atoi_each rest) (λ ints, Ok (versionInt :: ints))
      end
  end.

Definition GetSupportedMajorVersionsFromErrorResponseBody `{ExternVersion}
    (errorResponseBody : bytes) : outcome (list Z) :=
  outcome_bind (of_result (json_Unmarshal_responseJson errorResponseBody))
    (λ responseJson,
       let vasp2SupportedMajorVersions :=
         default "" (responseJson !! "supportedMajorVersions") in
       let vasp2SupportedMajorVersionsList :=
         strings_Split vasp2SupportedMajorVersions "," in
       atoi_each vasp2SupportedMajorVersionsList).

(** A sample decoder for error responses: the bodies listed, each with the
    object [encoding/json] decodes it to; every other input is rejected. *)
Module SampleVersion.

Definition body (majors : string) : bytes :=
  list_byte_of_string
    ("{" +:+ dquote +:+ "supportedMajorVersions" +:+ dquote +:+ ": "
         +:+ dquote +:+ majors +:+ dquote +:+ "}").

Definition empty_body : bytes := list_byte_of_string "{}".

Definition sample_bodies : list (bytes * gmap string string) :=
  [ (body "1,0", {[ "supportedMajorVersions" := "1,0" ]});
    (body "1, 0", {[ "supportedMajorVersions" := "1, 0" ]});
    (empty_body, ∅) ].

Fixpoint lookup_body (data : bytes) (table : list (bytes * gmap string string))
  : error + gmap string string :=
  match table with
  | [] => inl (json_Error "not a sample document")
  | (doc, object) :: rest =>
      if decide (data = doc) then inr object else lookup_body data rest
  end.

#[global] Instance extern : ExternVersion := {|
  json_Unmarshal_responseJson := λ data, lookup_body data sample_bodies;
|}.

End SampleVersion.

(** The number of occurrences of the byte [c] in [s]. *)
Fixpoint count_byte (c : ascii) (s : string) : nat :=
  match s with
  | EmptyString => 0
  | String d rest => (if decide (d = c) then 1 else 0) + count_byte c rest
  end.

(** ** package encoding/hex *)

(** The two errors of [hex.Decode]. *)
Inductive hex_error : Type :=
| hex_InvalidByteError (b : ascii)        (* hex.InvalidByteError(b) *)
| hex_ErrLength.                          (* hex.ErrLength *)

(** [reverseHexTable[c]]: the value of a hexadecimal digit of either case,
    0xff for every other byte. *)
Definition reverseHexTable (c : ascii) : Z :=
  let n := byte_code c in
  if (48 <=? n) && (n <=? 57) then n - 48
  else if (97 <=? n) && (n <=? 102) then n - 97 + 10
  else if (65 <=? n) && (n <=? 70) then n - 65 + 10
  else 255.

(** [hex.Decode]: two digits give one byte; at the first byte that is no
    digit the loop stops with [InvalidByteError]; a single byte left at the
    end is [InvalidByteError] when it is no digit and [ErrLength] otherwise.
    The bytes decoded before the error are returned with it. *)
Fixpoint hex_Decode (src : string) : bytes * option hex_error :=
  match src with
  | EmptyString => ([], None)
  | String p EmptyString =>
      if 15 <? reverseHexTable p then ([], Some (hex_InvalidByteError p))
      else ([], Some hex_ErrLength)
  | String p (String q rest) =>
      let a := reverseHexTable p in
      let b := reverseHexTable q in
      if 15 <? a then ([], Some (hex_InvalidByteError p))
      else if 15 <? b then ([], Some (hex_InvalidByteError q))
      else
        let '(dst, err) := hex_Decode rest in
        (byte_of_ascii (byte_chr (Z.lor (Z.shiftl a 4) b)) :: dst, err)
  end.

(** [hex.DecodeString(s)]: [src[:n], err] for the [n] bytes decoded. *)
Definition hex_DecodeString (s : string) : bytes * option hex_error :=
  hex_Decode s.

(** [hextable[n]], the digits of [hex.EncodeToString]. *)
Definition hextable (n : Z) : ascii :=
  if n <? 10 then byte_chr (48 + n) else byte_chr (97 + (n - 10)).

(** [hex.EncodeToString(src)]: for each byte [v] the digits of [v>>4] and
    of [v&0x0f]. *)
Fixpoint hex_EncodeToString (src : bytes) : string :=
  match src with
  | [] => ""
  | v :: rest =>
      let n := byte_code (ascii_of_byte v) in
      String (hextable (Z.shiftr n 4))
        (String (hextable (Z.land n 15)) (hex_EncodeToString rest))
  end.

(** A hexadecimal digit: 0 to 9, a to f or A to F. *)
Definition is_hex_digit (c : ascii) : bool :=
  let n := byte_code c in
  ((48 <=? n) && (n <=? 57)) || ((97 <=? n) && (n <=? 102))
  || ((65 <=? n) && (n <=? 70)).

(** A text of hexadecimal digits, an even number of them. *)
Definition is_hex_text (s : string) : bool :=
  Nat.even (String.length s) && forallb is_hex_digit (list_ascii_of_string s).

(** ** protocol.go: the public keys of a VASP *)

Record PubKeyResponse : Type := {
  PubKeyResponse_SigningPubKeyHex : string;
  PubKeyResponse_EncryptionPubKeyHex : string;
  PubKeyResponse_ExpirationTimestamp : option Z;
}.

Definition PubKeyResponse_SigningPubKey (r : PubKeyResponse)
  : bytes * option hex_error :=
  hex_DecodeString (PubKeyResponse_SigningPubKeyHex r).

Definition PubKeyResponse_EncryptionPubKey (r : PubKeyResponse)
  : bytes * option hex_error :=
  hex_DecodeString (PubKeyResponse_EncryptionPubKeyHex r).

(** * Properties *)

(** ** Bytes, strings *)

Lemma byte_code_chr (n : Z) : 0 ≤ n < 256 → byte_code (byte_chr n) = n.
Proof.
  intros Hn. unfold byte_code, byte_chr.
  rewrite N_ascii_embedding by lia. lia.
Qed.

Lemma byte_chr_code (c : ascii) : byte_chr (byte_code c) = c.
Proof.
  unfold byte_code, byte_chr. rewrite N2Z.id. apply ascii_N_embedding.
Qed.

Lemma byte_code_inj (c d : ascii) : byte_code c = byte_code d → c = d.
Proof.
  intros Heq. rewrite <- (byte_chr_code c), <- (byte_chr_code d). by rewrite Heq.
Qed.

Lemma string_app_cons (c : ascii) (s t : string) :
  String c s +:+ t = String c (s +:+ t).
Proof. done. Qed.

Lemma string_app_nil_r (s : string) : s +:+ "" = s.
Proof.
  induction s as [|c s IH]; [done|]. by rewrite string_app_cons, IH.
Qed.

Lemma string_app_assoc (s t u : string) : (s +:+ t) +:+ u = s +:+ t +:+ u.
Proof.
  induction s as [|c s IH]; [done|]. by rewrite !string_app_cons, IH.
Qed.

(** ** strconv: formatting and parsing are inverse *)

Lemma digit_char_code (d : Z) : 0 ≤ d < 10 → byte_code (digit_char d) = 48 + d.
Proof. intros Hd. unfold digit_char. apply byte_code_chr. lia. Qed.

Lemma is_digit_digit_char (d : Z) : 0 ≤ d < 10 → is_digit (digit_char d) = true.
Proof.
  intros Hd. unfold is_digit. rewrite digit_char_code by done.
  apply andb_true_intro. split; apply Z.leb_le; lia.
Qed.

Lemma format_digits_app (fuel : nat) (n : Z) (acc rest : string) :
  format_digits fuel n acc +:+ rest = format_digits fuel n (acc +:+ rest).
Proof.
  revert n acc. induction fuel as [|fuel IH]; intros n acc; cbn; [done|].
  destruct (n <? 10); [done|]. by rewrite IH.
Qed.

Lemma format_digits_cons (fuel : nat) (n : Z) (acc : string) :
  ∃ c s, format_digits fuel n acc = String c s ∧ is_digit c = true.
Proof.
  revert n acc. induction fuel as [|fuel IH]; intros n acc; cbn.
  - eexists _, _. split; [done|]. apply is_digit_digit_char.
    apply Z.mod_pos_bound. lia.
  - destruct (n <? 10); [|apply IH].
    eexists _, _. split; [done|]. apply is_digit_digit_char.
    apply Z.mod_pos_bound. lia.
Qed.

(** Parsing a digit [d] from the accumulator [n], when [n * 10 + d] is a
    [uint64]. *)
Lemma parseUint_loop_digit (d n : Z) (s : string) :
  0 ≤ d < 10 → 0 ≤ n → n * 10 + d ≤ maxUint64 →
  parseUint_loop (String (digit_char d) s) n = parseUint_loop s (n * 10 + d).
Proof.
  intros Hd Hn Hmax. cbn [parseUint_loop].
  rewrite is_digit_digit_char, digit_char_code by done.
  replace (48 + d - 48) with d by lia.
  unfold maxUint64 in *.
  destruct (Z.leb_spec ((2 ^ 64 - 1) / 10 + 1) n) as [Hc|Hc].
  { exfalso. change ((2 ^ 64 - 1) / 10 + 1) with 1844674407370955162 in Hc. lia. }
  rewrite Z.mod_small by lia.
  destruct (Z.ltb_spec (n * 10 + d) (n * 10)); [lia|].
  destruct (Z.ltb_spec (2 ^ 64 - 1) (n * 10 + d)); [lia|]. done.
Qed.

Lemma parseUint_loop_format_digits (fuel : nat) (n : Z) (acc : string) :
  0 ≤ n ≤ maxUint64 → n < 10 ^ (Z.of_nat fuel + 1) →
  parseUint_loop (format_digits fuel n acc) 0 = parseUint_loop acc n.
Proof.
  revert n acc. induction fuel as [|fuel IH]; intros n acc Hn Hlt.
  - cbn [format_digits]. change (10 ^ (Z.of_nat 0 + 1)) with 10 in Hlt.
    rewrite Z.mod_small by lia.
    rewrite parseUint_loop_digit by (unfold maxUint64 in *; lia).
    f_equal.
  - cbn [format_digits]. destruct (Z.ltb_spec n 10) as [Hs|Hs].
    + rewrite Z.mod_small by lia.
      rewrite parseUint_loop_digit by (unfold maxUint64 in *; lia).
      f_equal.
    + assert (Hq : 0 ≤ n / 10 ≤ maxUint64).
      { split; [apply Z.div_pos; lia|].
        transitivity n; [|lia]. apply Z.div_le_upper_bound; lia. }
      rewrite IH; [|done|].
      * pose proof (Z.mod_pos_bound n 10 ltac:(lia)) as Hm.
        pose proof (Z.div_mod n 10 ltac:(lia)) as Hdm.
        rewrite parseUint_loop_digit by lia.
        f_equal. lia.
      * apply Z.div_lt_upper_bound; [lia|].
        rewrite <- Z.pow_succ_r by lia.
        replace (Z.succ (Z.of_nat fuel + 1)) with (Z.of_nat (S fuel) + 1) by lia.
        done.
Qed.

Lemma lt_pow10_log2 (n : Z) : 0 ≤ n → n < 10 ^ (Z.of_nat (Z.to_nat (Z.log2 n)) + 1).
Proof.
  intros Hn. pose proof (Z.log2_nonneg n) as Hl.
  rewrite Z2Nat.id by done.
  destruct (Z.eq_dec n 0) as [->|Hne]; [done|].
  pose proof (Z.log2_spec n ltac:(lia)) as [_ Hlog].
  eapply Z.lt_le_trans; [exact Hlog|].
  rewrite <- Z.add_1_r. apply Z.pow_le_mono_l. lia.
Qed.

Lemma ParseUint_FormatUint (n : Z) :
  0 ≤ n ≤ maxUint64 → strconv_ParseUint (strconv_FormatUint n) = (n, None).
Proof.
  intros Hn. unfold strconv_ParseUint, strconv_FormatUint.
  destruct (format_digits_cons (Z.to_nat (Z.log2 n)) n "") as (c & s & Heq & _).
  rewrite Heq, <- Heq.
  rewrite parseUint_loop_format_digits; [done|done|].
  apply lt_pow10_log2. lia.
Qed.

Lemma FormatUint_cons (n : Z) :
  ∃ c s, strconv_FormatUint n = String c s ∧ is_digit c = true.
Proof. apply format_digits_cons. Qed.

Lemma is_digit_not_sign (c : ascii) :
  is_digit c = true → c ≠ "+"%char ∧ c ≠ "-"%char.
Proof.
  unfold is_digit. intros Hd. apply andb_prop in Hd as [H1 H2].
  apply Z.leb_le in H1.
  split; intros ->; [change (48 ≤ 43) in H1 | change (48 ≤ 45) in H1]; lia.
Qed.

(** [ParseInt(FormatInt(i, 10), 10, 64) == i] for every [int64]. *)
Lemma ParseInt_FormatInt (i : Z) :
  int64_range i → strconv_ParseInt (strconv_FormatInt i) = (i, None).
Proof.
  unfold int64_range. intros Hi. unfold strconv_FormatInt.
  destruct (Z.ltb_spec i 0) as [Hneg|Hpos].
  - unfold strconv_ParseInt.
    rewrite decide_False by done. rewrite decide_True by done.
    rewrite ParseUint_FormatUint by (unfold maxUint64; lia).
    cbn [negb andb].
    destruct (Z.ltb_spec (2 ^ 63) (- i)); [lia|].
    f_equal. lia.
  - destruct (FormatUint_cons i) as (c & s & Heq & Hd).
    apply is_digit_not_sign in Hd as [Hp Hm].
    unfold strconv_ParseInt. rewrite Heq.
    rewrite decide_False by done. rewrite decide_False by done.
    rewrite <- Heq.
    rewrite ParseUint_FormatUint by (unfold maxUint64; lia).
    cbn [negb andb].
    destruct (Z.leb_spec (2 ^ 63) i); [lia|]. done.
Qed.

(** ** fmt: scanning what [%d] printed *)

Lemma accept_while_app (ok : ascii → bool) (s tok rest : string) :
  accept_while ok s = (tok, rest) → s = tok +:+ rest.
Proof.
  revert tok rest. induction s as [|c s IH]; intros tok rest Heq; cbn in Heq.
  - by inversion Heq.
  - destruct (ok c).
    + destruct (accept_while ok s) as [tok' rest'] eqn:Hs.
      inversion Heq; subst. rewrite string_app_cons. f_equal. by apply IH.
    + by inversion Heq.
Qed.

Lemma accept_while_stops (rest : string) :
  stops_number rest → accept_while is_decimalDigit rest = ("", rest).
Proof. destruct rest as [|c rest]; cbn; [done|]. by intros ->. Qed.

Lemma accept_while_format_digits (fuel : nat) (n : Z) (acc : string) :
  accept_while is_decimalDigit (format_digits fuel n acc)
  = (format_digits fuel n (accept_while is_decimalDigit acc).1,
     (accept_while is_decimalDigit acc).2).
Proof.
  assert (Hstep : ∀ m acc',
    accept_while is_decimalDigit (String (digit_char (m mod 10)) acc')
    = (String (digit_char (m mod 10)) (accept_while is_decimalDigit acc').1,
       (accept_while is_decimalDigit acc').2)).
  { intros m acc'. cbn [accept_while]. unfold is_decimalDigit at 1.
    rewrite is_digit_digit_char by (apply Z.mod_pos_bound; lia).
    cbn [orb]. by destruct (accept_while is_decimalDigit acc'). }
  revert n acc. induction fuel as [|fuel IH]; intros n acc; cbn [format_digits].
  - apply Hstep.
  - destruct (n <? 10); [apply Hstep|].
    by rewrite IH, Hstep.
Qed.

Lemma accept_while_FormatUint (n : Z) (rest : string) :
  stops_number rest →
  accept_while is_decimalDigit (strconv_FormatUint n +:+ rest)
  = (strconv_FormatUint n, rest).
Proof.
  intros Hrest. unfold strconv_FormatUint.
  rewrite format_digits_app, accept_while_format_digits.
  change ("" +:+ rest) with rest. by rewrite accept_while_stops.
Qed.

Lemma SkipSpace_nonblank (c : ascii) (s : string) :
  33 ≤ byte_code c < 128 → SkipSpace (String c s) = Ok (String c s).
Proof.
  intros Hc. unfold SkipSpace. cbn [String.length SkipSpace_steps].
  destruct (Z.eqb_spec (byte_code c) 10); [lia|].
  assert (Hnone : skip_space_rune (String c s) = None).
  { unfold skip_space_rune.
    repeat match goal with
           | |- context [Z.eqb (byte_code c) ?k] =>
               destruct (Z.eqb_spec (byte_code c) k); [lia|]
           | |- context [Z.leb ?k (byte_code c)] =>
               destruct (Z.leb_spec k (byte_code c))
           | |- context [Z.leb (byte_code c) ?k] =>
               destruct (Z.leb_spec (byte_code c) k)
           end; try lia; cbn [andb orb];
    destruct s as [|c2 [|c3 s]]; done. }
  by rewrite Hnone.
Qed.

Lemma is_digit_range (c : ascii) : is_digit c = true → 48 ≤ byte_code c ≤ 57.
Proof.
  unfold is_digit. intros Hd. apply andb_prop in Hd as [H1 H2].
  apply Z.leb_le in H1, H2. lia.
Qed.

Lemma scanInt_FormatInt (i : Z) (rest : string) :
  int64_range i → stops_number rest →
  scanInt (strconv_FormatInt i +:+ rest) = Ok (i, rest).
Proof.
  intros Hi Hrest. pose proof (ParseInt_FormatInt i Hi) as Hparse.
  unfold strconv_FormatInt in *. unfold scanInt.
  destruct (i <? 0).
  - rewrite string_app_cons, SkipSpace_nonblank by (change (byte_code "-") with 45; lia).
    cbn [outcome_bind]. change (is_sign "-") with true. cbv iota.
    destruct (FormatUint_cons (- i)) as (d & s & Heq & Hd).
    rewrite Heq, string_app_cons. unfold is_decimalDigit at 1. rewrite Hd.
    cbn [orb]. rewrite <- string_app_cons, <- Heq.
    rewrite accept_while_FormatUint by done.
    change ("-" +:+ strconv_FormatUint (- i))
      with (String "-" (strconv_FormatUint (- i))).
    by rewrite Hparse.
  - destruct (FormatUint_cons i) as (d & s & Heq & Hd).
    pose proof (is_digit_range d Hd) as Hrange.
    rewrite Heq, string_app_cons, SkipSpace_nonblank by lia.
    cbn [outcome_bind].
    assert (Hsign : is_sign d = false).
    { unfold is_sign. destruct (Z.eqb_spec (byte_code d) 43); [lia|].
      destruct (Z.eqb_spec (byte_code d) 45); [lia|]. done. }
    rewrite Hsign. unfold is_decimalDigit at 1. rewrite Hd. cbn [orb].
    rewrite <- string_app_cons, <- Heq.
    rewrite accept_while_FormatUint by done.
    change ("" +:+ strconv_FormatUint i) with (strconv_FormatUint i).
    by rewrite Hparse.
Qed.

Lemma Sscanf_Sprintf (a b : Z) :
  int64_range a → int64_range b →
  fmt_Sscanf_d_dot_d (fmt_Sprintf_d_dot_d a b) = Ok (a, b).
Proof.
  intros Ha Hb. unfold fmt_Sscanf_d_dot_d, fmt_Sprintf_d_dot_d.
  rewrite scanInt_FormatInt by done. cbn [outcome_bind].
  change ("." +:+ strconv_FormatInt b) with (String "." (strconv_FormatInt b)).
  change (byte_code "." =? 46) with true. cbv iota.
  rewrite <- (string_app_nil_r (strconv_FormatInt b)).
  by rewrite scanInt_FormatInt.
Qed.

Lemma ParseVersion_String (v : ParsedVersion) :
  int64_range (Major v) → int64_range (Minor v) →
  ParseVersion (ParsedVersion_String v) = Ok v.
Proof.
  intros Ha Hb. unfold ParseVersion, ParsedVersion_String.
  rewrite Sscanf_Sprintf by done. by destruct v.
Qed.

(** What [scanInt] accepts: after the blanks, a token that [ParseInt] reads,
    followed by whatever is left. *)
Lemma scanInt_inv (s rest : string) (i : Z) :
  scanInt s = Ok (i, rest) →
  ∃ tok, SkipSpace s = Ok (tok +:+ rest) ∧ strconv_ParseInt tok = (i, None).
Proof.
  unfold scanInt. destruct (SkipSpace s) as [s1| |]; cbn [outcome_bind]; [|done..].
  destruct s1 as [|c r]; [done|].
  destruct (is_sign c).
  - destruct r as [|d r']; [done|].
    destruct (is_decimalDigit d); [|done].
    destruct (accept_while is_decimalDigit (String d r')) as [digits rest'] eqn:Hacc.
    destruct (strconv_ParseInt (String c "" +:+ digits)) as [j [e|]] eqn:Hp; [done|].
    intros [= -> ->]. exists (String c digits). split; [|done].
    apply accept_while_app in Hacc. rewrite string_app_cons. by rewrite Hacc.
  - destruct (is_decimalDigit c); [|done].
    destruct (accept_while is_decimalDigit (String c r)) as [digits rest'] eqn:Hacc.
    destruct (strconv_ParseInt ("" +:+ digits)) as [j [e|]] eqn:Hp; [done|].
    intros [= -> ->]. exists digits. split; [|done].
    apply accept_while_app in Hacc. by rewrite Hacc.
Qed.

(** ** version.go *)

Lemma SkipSpace_steps_no_panic (steps : nat) (s : string) (msg : string) :
  SkipSpace_steps steps s ≠ Panic msg.
Proof.
  revert s. induction steps as [|steps IH]; intros s; destruct s as [|c s];
    cbn [SkipSpace_steps]; try done;
    destruct (byte_code c =? 10); try done;
    destruct (skip_space_rune (String c s)); try done.
Qed.

Lemma scanInt_no_panic (s : string) (msg : string) : scanInt s ≠ Panic msg.
Proof.
  unfold scanInt. destruct (SkipSpace s) as [s1| |m] eqn:Hs; cbn [outcome_bind].
  - destruct s1 as [|c r]; [done|].
    destruct (is_sign c).
    + destruct r as [|d r']; [done|]. destruct (is_decimalDigit d); [|done].
      destruct (accept_while _ _). by destruct (strconv_ParseInt _) as [? [?|]].
    + destruct (is_decimalDigit c); [|done].
      destruct (accept_while _ _). by destruct (strconv_ParseInt _) as [? [?|]].
  - done.
  - by apply SkipSpace_steps_no_panic in Hs.
Qed.

Lemma ParseVersion_no_panic (s : string) (msg : string) : ParseVersion s ≠ Panic msg.
Proof.
  unfold ParseVersion, fmt_Sscanf_d_dot_d.
  destruct (scanInt s) as [[a s1]| |m] eqn:Ha; cbn [outcome_bind]; [|done|].
  - destruct s1 as [|c s2]; [done|]. destruct (byte_code c =? 46); [|done].
    destruct (scanInt s2) as [[b s3]| |m] eqn:Hb; cbn [outcome_bind]; [done..|].
    by apply scanInt_no_panic in Hb.
  - by apply scanInt_no_panic in Ha.
Qed.

(** C5 (as amended). Parsing is the inverse of formatting for every pair of
    non-negative integers of Go's [int]; and every string that [ParseVersion]
    accepts consists of optional blanks, an integer that [strconv.ParseInt]
    reads as the major, a ['.'], optional blanks, an integer that it reads
    as the minor, and then any text. *)
Theorem ParseVersion_roundtrip_and_shape :
  (∀ v : ParsedVersion,
      0 ≤ Major v < 2 ^ 63 → 0 ≤ Minor v < 2 ^ 63 →
      ParseVersion (ParsedVersion_String v) = Ok v)
  ∧ (∀ (s : string) (v : ParsedVersion),
        ParseVersion s = Ok v →
        ∃ major minor s2 rest,
          SkipSpace s = Ok (major +:+ "." +:+ s2)
          ∧ SkipSpace s2 = Ok (minor +:+ rest)
          ∧ strconv_ParseInt major = (Major v, None)
          ∧ strconv_ParseInt minor = (Minor v, None)).
Proof.
  split.
  - intros v Ha Hb. apply ParseVersion_String; unfold int64_range; lia.
  - intros s v. unfold ParseVersion, fmt_Sscanf_d_dot_d.
    destruct (scanInt s) as [[a s1]| |] eqn:Ha; cbn [outcome_bind]; [|done..].
    destruct s1 as [|c s2]; [done|].
    destruct (Z.eqb_spec (byte_code c) 46) as [Hc|]; [|done].
    destruct (scanInt s2) as [[b s3]| |] eqn:Hb; cbn [outcome_bind]; [|done..].
    intros [= <-]. cbn [Major Minor].
    apply scanInt_inv in Ha as (major & Hs & Hmajor).
    apply scanInt_inv in Hb as (minor & Hs2 & Hminor).
    exists major, minor, s2, s3. repeat split; try done.
    rewrite Hs. do 2 f_equal.
    change ("." +:+ s2) with (String "." s2). f_equal.
    apply byte_code_inj. by rewrite Hc.
Qed.

(** The round trip at version 1.0, and the shape of the accepted string
    [" +1.0abc"]. *)
Lemma ParseVersion_roundtrip_and_shape_witness :
  ParseVersion (ParsedVersion_String {| Major := 1; Minor := 0 |})
  = Ok {| Major := 1; Minor := 0 |}
  ∧ ∃ major minor s2 rest,
      SkipSpace " +1.0abc" = Ok (major +:+ "." +:+ s2)
      ∧ SkipSpace s2 = Ok (minor +:+ rest)
      ∧ strconv_ParseInt major = (1, None)
      ∧ strconv_ParseInt minor = (0, None).
Proof.
  split.
  - apply (proj1 ParseVersion_roundtrip_and_shape {| Major := 1; Minor := 0 |});
      cbn; lia.
  - apply (proj2 ParseVersion_roundtrip_and_shape " +1.0abc"
             {| Major := 1; Minor := 0 |}).
    reflexivity.
Defined.

(** C5, second half as stated, fails: ["1.0abc"] and ["-1.5"] are not of the
    shape "major.minor" for non-negative integers, and [ParseVersion] accepts
    both. *)
Lemma ParseVersion_accepts_other_shapes :
  is_major_minor "1.0abc" = false
  ∧ ParseVersion "1.0abc" = Ok {| Major := 1; Minor := 0 |}
  ∧ is_major_minor "-1.5" = false
  ∧ ParseVersion "-1.5" = Ok {| Major := -1; Minor := 5 |}.
Proof. repeat split; vm_compute; reflexivity. Qed.

(** C7 (as amended). For two strings that parse, [SelectLowerVersion] returns
    the argument whose version is the smaller in the order by (major,
    minor), the first argument on a tie; swapping the arguments gives the
    same string when the two versions differ, and in every case a string
    that parses to the same version. If either argument does not parse,
    the call fails. *)
Theorem SelectLowerVersion_lower :
  (∀ (a b : string) (va vb : ParsedVersion),
      ParseVersion a = Ok va → ParseVersion b = Ok vb →
      SelectLowerVersion a b = Ok (if version_lt vb va then b else a)
      ∧ (va ≠ vb → SelectLowerVersion a b = SelectLowerVersion b a)
      ∧ ∃ r1 r2, SelectLowerVersion a b = Ok r1
                 ∧ SelectLowerVersion b a = Ok r2
                 ∧ ParseVersion r1 = ParseVersion r2)
  ∧ (∀ a b : string,
        is_Err (ParseVersion a) = true ∨ is_Err (ParseVersion b) = true →
        is_Err (SelectLowerVersion a b) = true).
Proof.
  split.
  - intros a b [a1 a2] [b1 b2] Ha Hb.
    assert (Hab : SelectLowerVersion a b
                  = Ok (if version_lt {| Major := b1; Minor := b2 |}
                                      {| Major := a1; Minor := a2 |}
                        then b else a)).
    { unfold SelectLowerVersion. rewrite Ha, Hb. cbn [outcome_bind Major Minor].
      unfold version_lt. cbn [Major Minor].
      rewrite (Z.eqb_sym a1 b1). by destruct (_ || _). }
    assert (Hba : SelectLowerVersion b a
                  = Ok (if version_lt {| Major := a1; Minor := a2 |}
                                      {| Major := b1; Minor := b2 |}
                        then a else b)).
    { unfold SelectLowerVersion. rewrite Ha, Hb. cbn [outcome_bind Major Minor].
      unfold version_lt. cbn [Major Minor].
      rewrite (Z.eqb_sym b1 a1). by destruct (_ || _). }
    split; [done|]. rewrite Hab, Hba. unfold version_lt. cbn [Major Minor].
    destruct (Z.ltb_spec b1 a1), (Z.ltb_spec a1 b1), (Z.eqb_spec b1 a1),
      (Z.eqb_spec a1 b1), (Z.ltb_spec b2 a2), (Z.ltb_spec a2 b2);
      cbn [orb andb]; try lia;
      (split; [first [done | intros Hne; exfalso; apply Hne; f_equal; lia]
              | eexists _, _; split; [reflexivity|]; split; [reflexivity|];
                rewrite ?Ha, ?Hb; first [done | f_equal; f_equal; lia]]).
  - intros a b Herr. unfold SelectLowerVersion.
    destruct (ParseVersion a) as [va| |] eqn:Ha; cbn [outcome_bind]; [|done|].
    + destruct Herr as [Herr|Herr]; [done|].
      destruct (ParseVersion b) as [vb| |] eqn:Hb; cbn [outcome_bind]; done.
    + by apply ParseVersion_no_panic in Ha.
Qed.

(** The versions 0.3 and 1.0, in both orders. *)
Lemma SelectLowerVersion_lower_witness :
  SelectLowerVersion "1.0" "0.3" = Ok "0.3"
  ∧ SelectLowerVersion "1.0" "0.3" = SelectLowerVersion "0.3" "1.0".
Proof.
  destruct (proj1 SelectLowerVersion_lower "1.0" "0.3"
              {| Major := 1; Minor := 0 |} {| Major := 0; Minor := 3 |}
              eq_refl eq_refl) as (Hlow & Hsym & _).
  split; [exact Hlow|]. apply Hsym. discriminate.
Defined.

(** C7, as stated, fails: ["1.0"] and ["1.00"] both parse, to the same
    version, and each call returns its own first argument. *)
Lemma SelectLowerVersion_not_symmetric :
  is_Ok (ParseVersion "1.0") = true
  ∧ is_Ok (ParseVersion "1.00") = true
  ∧ SelectLowerVersion "1.0" "1.00" = Ok "1.0"
  ∧ SelectLowerVersion "1.00" "1.0" = Ok "1.00"
  ∧ SelectLowerVersion "1.0" "1.00" ≠ SelectLowerVersion "1.00" "1.0".
Proof. repeat split; try (vm_compute; reflexivity). discriminate. Qed.

(** *** Mutual version selection *)

Lemma GetSupportedMajorVersions_elem (m : Z) :
  m ∈ GetSupportedMajorVersions ↔ m = 0 ∨ m = 1.
Proof.
  assert (Heq : GetSupportedMajorVersions = {[ 0 ]} ∪ {[ 1 ]}).
  { unfold GetSupportedMajorVersions, backcompatVersions, MAJOR_VERSION.
    cbn [foldl].
    replace (ParseVersion "0.3") with (Ok {| Major := 0; Minor := 3 |})
      by (vm_compute; reflexivity).
    done. }
  rewrite Heq. set_solver.
Qed.

(** For a supported major the lookup finds a version, and of that major. *)
Lemma GetHighest_supported (m : Z) :
  m ∈ GetSupportedMajorVersions →
  ∃ v, GetHighestSupportedVersionForMajorVersion m = Some v ∧ Major v = m.
Proof.
  intros [-> | ->]%GetSupportedMajorVersions_elem.
  - exists {| Major := 0; Minor := 3 |}. split; [|done]. vm_compute. reflexivity.
  - exists {| Major := 1; Minor := 0 |}. split; [|done]. vm_compute. reflexivity.
Qed.

Lemma select_step_unsupported (st : option ParsedVersion) (m : Z) :
  m ∉ GetSupportedMajorVersions → select_step GetSupportedMajorVersions st m = st.
Proof. intros Hm. unfold select_step. by rewrite decide_False. Qed.

(** The loop, once a version is held: it ends with the version of the
    greatest supported major among the one held and those still to come. *)
Lemma select_loop_from (l : list Z) (v : ParsedVersion) :
  GetHighestSupportedVersionForMajorVersion (Major v) = Some v →
  foldl (select_step GetSupportedMajorVersions) (Some v) l
  = GetHighestSupportedVersionForMajorVersion
      (foldl Z.max (Major v) (filter (λ m, m ∈ GetSupportedMajorVersions) l)).
Proof.
  revert v. induction l as [|m l IH]; intros v Hv; [by cbn|].
  cbn [foldl]. destruct (decide (m ∈ GetSupportedMajorVersions)) as [Hm|Hm].
  - rewrite filter_cons_True by done. cbn [foldl].
    unfold select_step at 2. rewrite decide_True by done.
    destruct (Z.ltb_spec (Major v) m) as [Hlt|Hge].
    + destruct (GetHighest_supported m Hm) as (w & Hw & Hmw).
      rewrite Hw, IH by (by rewrite Hmw).
      rewrite Hmw. do 2 f_equal. lia.
    + rewrite IH by done. do 2 f_equal. lia.
  - rewrite filter_cons_False by done.
    rewrite select_step_unsupported by done. by apply IH.
Qed.

Lemma select_loop (l : list Z) :
  foldl (select_step GetSupportedMajorVersions) None l
  = match filter (λ m, m ∈ GetSupportedMajorVersions) l with
    | [] => None
    | m :: ms => GetHighestSupportedVersionForMajorVersion (foldl Z.max m ms)
    end.
Proof.
  induction l as [|m l IH]; [done|].
  cbn [foldl]. destruct (decide (m ∈ GetSupportedMajorVersions)) as [Hm|Hm].
  - rewrite filter_cons_True by done.
    unfold select_step at 2. rewrite decide_True by done.
    destruct (GetHighest_supported m Hm) as (w & Hw & Hmw).
    rewrite Hw, select_loop_from by (by rewrite Hmw). by rewrite Hmw.
  - rewrite filter_cons_False by done.
    by rewrite select_step_unsupported.
Qed.

(** C6. [SelectHighestSupportedVersion] is the selection the specification
    describes: of the counterparty's majors only the supported ones count,
    none of them gives no version, and otherwise the result is the version
    held for the greatest of them. With the current version 1.0 and the
    backward-compatible 0.3, [[1]] selects ["1.0"], the current version, and
    [[7]] selects nothing. *)
Theorem SelectHighestSupportedVersion_spec :
  (∀ counterpartyMajors : list Z,
      SelectHighestSupportedVersion counterpartyMajors
      = spec_selectHighestMutual counterpartyMajors)
  ∧ (∀ counterpartyMajors : list Z,
        SelectHighestSupportedVersion counterpartyMajors = None
        ↔ ∀ m, m ∈ counterpartyMajors → m ∉ GetSupportedMajorVersions)
  ∧ SelectHighestSupportedVersion [1] = Some UmaProtocolVersion
  ∧ UmaProtocolVersion = "1.0"
  ∧ SelectHighestSupportedVersion [7] = None.
Proof.
  assert (Hspec : ∀ l, SelectHighestSupportedVersion l = spec_selectHighestMutual l).
  { intros l. unfold SelectHighestSupportedVersion, spec_selectHighestMutual.
    rewrite select_loop.
    destruct (filter _ l) as [|m ms]; [done|].
    by destruct (GetHighestSupportedVersionForMajorVersion _). }
  split; [done|]. split; [|by vm_compute].
  intros l. rewrite Hspec. unfold spec_selectHighestMutual.
  destruct (filter (λ m, m ∈ GetSupportedMajorVersions) l) as [|m ms] eqn:Hf.
  - split; [|done]. intros _ m Hm Hsup.
    assert (Hin : m ∈ filter (λ m, m ∈ GetSupportedMajorVersions) l)
      by (by apply list_elem_of_filter).
    rewrite Hf in Hin. by apply not_elem_of_nil in Hin.
  - assert (Hmax : foldl Z.max m ms ∈ GetSupportedMajorVersions).
    { assert (Hall : Forall (λ k, k ∈ GetSupportedMajorVersions) (m :: ms)).
      { rewrite <- Hf. apply Forall_forall. by intros k [Hk _]%list_elem_of_filter. }
      clear Hf. revert m Hall. induction ms as [|k ms IHms]; intros m Hall.
      - by inversion Hall.
      - cbn [foldl]. apply IHms.
        inversion Hall as [|? ? Hm Hrest]; subst.
        inversion Hrest as [|? ? Hk Hms]; subst.
        constructor; [|done]. by destruct (Z.max_spec m k) as [[_ ->]|[_ ->]]. }
    destruct (GetHighest_supported _ Hmax) as (w & -> & _).
    split; [done|]. intros Hnone. exfalso.
    apply (Hnone m).
    + assert (Hin : m ∈ filter (λ m, m ∈ GetSupportedMajorVersions) l)
        by (rewrite Hf; left).
      by apply list_elem_of_filter in Hin as [_ ?].
    + assert (Hin : m ∈ filter (λ m, m ∈ GetSupportedMajorVersions) l)
        by (rewrite Hf; left).
      by apply list_elem_of_filter in Hin as [? _].
Qed.

(** Nothing of [[7; 9]] is supported, so nothing is selected. *)
Lemma SelectHighestSupportedVersion_spec_witness :
  SelectHighestSupportedVersion [7; 9] = None.
Proof.
  apply (proj1 (proj2 SelectHighestSupportedVersion_spec)).
  intros m Hm Hsup. apply GetSupportedMajorVersions_elem in Hsup.
  apply list_elem_of_In in Hm. cbn in Hm. lia.
Defined.

(** ** protocol.go: the capability request *)

Lemma LnurlpRequest_IsUmaRequest_iff (q : LnurlpRequest) :
  LnurlpRequest_IsUmaRequest q = true
  ↔ is_Some (LnurlpRequest_Nonce q)
    ∧ is_Some (LnurlpRequest_Signature q)
    ∧ is_Some (LnurlpRequest_VaspDomain q)
    ∧ is_Some (LnurlpRequest_Timestamp q)
    ∧ is_Some (LnurlpRequest_UmaVersion q).
Proof.
  destruct q as [addr nonce sig flag dom ts ver].
  unfold LnurlpRequest_IsUmaRequest. cbn. split.
  - destruct nonce, sig, dom, ts, ver; cbn; try discriminate; eauto 10.
  - intros ([? ->] & [? ->] & [? ->] & [? ->] & [? ->]). done.
Qed.

(** C4. A loose capability request is an UMA request exactly when its nonce,
    signature, sender domain, timestamp and version are all present, whatever
    the travel-rule flag; then [AsUmaRequest] returns a strict request that
    embeds the loose one unchanged and whose fields are the loose ones, with
    the travel-rule flag false when absent; and when one of the five is
    missing [IsUmaRequest] is false and [AsUmaRequest] returns nil, without
    error. *)
Theorem LnurlpRequest_upgrade :
  (∀ q : LnurlpRequest,
      LnurlpRequest_IsUmaRequest q = true
      ↔ is_Some (LnurlpRequest_Nonce q)
        ∧ is_Some (LnurlpRequest_Signature q)
        ∧ is_Some (LnurlpRequest_VaspDomain q)
        ∧ is_Some (LnurlpRequest_Timestamp q)
        ∧ is_Some (LnurlpRequest_UmaVersion q))
  ∧ (∀ q : LnurlpRequest,
        LnurlpRequest_IsUmaRequest q = true →
        ∃ u : UmaLnurlpRequest,
          LnurlpRequest_AsUmaRequest q = Ok (Some u)
          ∧ UmaLnurlpRequest_LnurlpRequest u = q
          ∧ UmaLnurlpRequest_ReceiverAddress u = LnurlpRequest_ReceiverAddress q
          ∧ Some (UmaLnurlpRequest_Nonce u) = LnurlpRequest_Nonce q
          ∧ Some (UmaLnurlpRequest_Signature u) = LnurlpRequest_Signature q
          ∧ Some (UmaLnurlpRequest_VaspDomain u) = LnurlpRequest_VaspDomain q
          ∧ Some (UmaLnurlpRequest_Timestamp u) = LnurlpRequest_Timestamp q
          ∧ Some (UmaLnurlpRequest_UmaVersion u) = LnurlpRequest_UmaVersion q
          ∧ UmaLnurlpRequest_IsSubjectToTravelRule u
            = default false (LnurlpRequest_IsSubjectToTravelRule q))
  ∧ (∀ q : LnurlpRequest,
        LnurlpRequest_Nonce q = None
        ∨ LnurlpRequest_Signature q = None
        ∨ LnurlpRequest_VaspDomain q = None
        ∨ LnurlpRequest_Timestamp q = None
        ∨ LnurlpRequest_UmaVersion q = None →
        LnurlpRequest_IsUmaRequest q = false
        ∧ LnurlpRequest_AsUmaRequest q = Ok None).
Proof.
  split; [|split].
  - apply LnurlpRequest_IsUmaRequest_iff.
  - intros [addr nonce sig flag dom ts ver] Huma.
    unfold LnurlpRequest_AsUmaRequest. rewrite Huma. cbn [negb].
    unfold LnurlpRequest_IsUmaRequest in Huma. cbn in Huma |- *.
    destruct nonce, sig, dom, ts, ver; cbn in Huma; try discriminate.
    cbn. eexists. split; [reflexivity|]. cbn. by destruct flag.
  - intros [addr nonce sig flag dom ts ver] Hnone.
    unfold LnurlpRequest_AsUmaRequest, LnurlpRequest_IsUmaRequest.
    cbn in Hnone |- *.
    destruct Hnone as [-> | [-> | [-> | [-> | ->]]]]; cbn;
      repeat match goal with
             | |- context [notnil ?o] => destruct o; cbn
             end; done.
Qed.

(** The sample request without the travel-rule flag upgrades, with the flag
    false; without a nonce it does not. *)
Lemma LnurlpRequest_upgrade_witness :
  (∃ u, LnurlpRequest_AsUmaRequest Sample.capability_request_no_flag = Ok (Some u)
        ∧ UmaLnurlpRequest_LnurlpRequest u = Sample.capability_request_no_flag
        ∧ UmaLnurlpRequest_IsSubjectToTravelRule u = false)
  ∧ LnurlpRequest_AsUmaRequest
      {| LnurlpRequest_ReceiverAddress := "alice@vasp.com";
         LnurlpRequest_Nonce := None;
         LnurlpRequest_Signature := Some "c2ln";
         LnurlpRequest_IsSubjectToTravelRule := Some true;
         LnurlpRequest_VaspDomain := Some "vasp1.com";
         LnurlpRequest_Timestamp := Some {| time_sec := 1700000000; time_nsec := 0 |};
         LnurlpRequest_UmaVersion := Some "1.0" |} = Ok None.
Proof.
  split.
  - destruct (proj1 (proj2 LnurlpRequest_upgrade)
                Sample.capability_request_no_flag eq_refl)
      as (u & Hu & Hq & _ & _ & _ & _ & _ & _ & Hflag).
    exists u. repeat split; [exact Hu | exact Hq | exact Hflag].
  - apply (proj2 (proj2 LnurlpRequest_upgrade)). left. reflexivity.
Defined.

(** The payload of a capability request that has a nonce and a timestamp. *)
Lemma LnurlpRequest_signablePayload_Ok (q : LnurlpRequest) (nonce : string)
    (timestamp : time_Time) :
  LnurlpRequest_Nonce q = Some nonce →
  LnurlpRequest_Timestamp q = Some timestamp →
  LnurlpRequest_signablePayload q
  = Ok (list_byte_of_string
          (LnurlpRequest_ReceiverAddress q +:+ "|" +:+ nonce +:+ "|"
             +:+ strconv_FormatInt (time_Unix timestamp))).
Proof.
  intros Hn Ht. unfold LnurlpRequest_signablePayload. by rewrite Hn, Ht.
Qed.

Lemma LnurlpRequest_signablePayload_Err (q : LnurlpRequest) :
  is_Err (LnurlpRequest_signablePayload q) = true
  ↔ LnurlpRequest_Nonce q = None ∨ LnurlpRequest_Timestamp q = None.
Proof.
  unfold LnurlpRequest_signablePayload.
  destruct (LnurlpRequest_Timestamp q), (LnurlpRequest_Nonce q); cbn;
    intuition discriminate.
Qed.

Section ProtocolProperties.
Context `{Extern}.

(** ** protocol.go: signable payloads *)

Lemma PayRequest_signablePayload_Ok (p : PayRequest) (payerData : PayerData)
    (identifier : string) (compliance : CompliancePayerData) :
  PayRequest_PayerData p = Some payerData →
  PayerData_Identifier payerData = Some identifier →
  identifier ≠ "" →
  PayerData_Compliance payerData = inr (Some compliance) →
  PayRequest_signablePayload p
  = Ok (list_byte_of_string
          (identifier +:+ "|" +:+ CompliancePayerData_SignatureNonce compliance
             +:+ "|"
             +:+ strconv_FormatInt (CompliancePayerData_SignatureTimestamp compliance))).
Proof.
  intros Hpd Hid Hne Hc. unfold PayRequest_signablePayload.
  rewrite Hpd, Hid, Hc. by rewrite decide_False.
Qed.

(** C2. The canonical payload of each signable message is the bytes of its
    fields joined by ['|'] in the order of its type: receiver address, nonce,
    timestamp for the capability request; payer identifier, nonce, timestamp
    (the last two from the compliance block of the payer data) for the
    invoice request; payer identifier, payee identifier, nonce, timestamp
    for payee compliance data; nonce, timestamp for the post-transaction
    callback. For the receiver address alice@vasp.com, the nonce abc and the
    timestamp 1700000000 it is alice@vasp.com|abc|1700000000. *)
Theorem signablePayload_canonical :
  (∀ (q : LnurlpRequest) (nonce : string) (timestamp : time_Time),
      LnurlpRequest_Nonce q = Some nonce →
      LnurlpRequest_Timestamp q = Some timestamp →
      LnurlpRequest_signablePayload q
      = Ok (list_byte_of_string
              (LnurlpRequest_ReceiverAddress q +:+ "|" +:+ nonce +:+ "|"
                 +:+ strconv_FormatInt (time_Unix timestamp))))
  ∧ (∀ (p : PayRequest) (payerData : PayerData) (identifier : string)
       (compliance : CompliancePayerData),
        PayRequest_PayerData p = Some payerData →
        PayerData_Identifier payerData = Some identifier →
        identifier ≠ "" →
        PayerData_Compliance payerData = inr (Some compliance) →
        PayRequest_signablePayload p
        = Ok (list_byte_of_string
                (identifier +:+ "|"
                   +:+ CompliancePayerData_SignatureNonce compliance +:+ "|"
                   +:+ strconv_FormatInt
                         (CompliancePayerData_SignatureTimestamp compliance))))
  ∧ (∀ (c : CompliancePayeeData) (payerIdentifier payeeIdentifier : string),
        CompliancePayeeData_signablePayload (Some c) payerIdentifier payeeIdentifier
        = Ok (list_byte_of_string
                (payerIdentifier +:+ "|" +:+ payeeIdentifier +:+ "|"
                   +:+ CompliancePayeeData_SignatureNonce c +:+ "|"
                   +:+ strconv_FormatInt (CompliancePayeeData_SignatureTimestamp c))))
  ∧ (∀ c : PostTransactionCallback,
        PostTransactionCallback_signablePayload c
        = list_byte_of_string
            (PostTransactionCallback_Nonce c +:+ "|"
               +:+ strconv_FormatInt (PostTransactionCallback_Timestamp c)))
  ∧ (∀ q : LnurlpRequest,
        LnurlpRequest_ReceiverAddress q = "alice@vasp.com" →
        LnurlpRequest_Nonce q = Some "abc" →
        time_Unix <$> LnurlpRequest_Timestamp q = Some 1700000000 →
        LnurlpRequest_signablePayload q
        = Ok (list_byte_of_string "alice@vasp.com|abc|1700000000")).
Proof.
  split; [|split; [|split; [|split]]].
  - apply LnurlpRequest_signablePayload_Ok.
  - apply PayRequest_signablePayload_Ok.
  - done.
  - done.
  - intros q Haddr Hnonce Hts.
    destruct (LnurlpRequest_Timestamp q) as [timestamp|] eqn:Ht; [|done].
    injection Hts as Hunix.
    rewrite (LnurlpRequest_signablePayload_Ok q "abc" timestamp) by done.
    by rewrite Haddr, Hunix.
Qed.

(** C10. The canonical payloads of the post-transaction callback and of the
    capability response have no error path: for every value they are the
    bytes of nonce|timestamp and of receiver identifier|nonce|timestamp; an
    empty nonce or identifier is taken as it is, which leaves the payload
    starting with ['|']. *)
Theorem strict_signablePayload_total :
  (∀ c : PostTransactionCallback,
      PostTransactionCallback_signablePayload c
      = list_byte_of_string
          (PostTransactionCallback_Nonce c +:+ "|"
             +:+ strconv_FormatInt (PostTransactionCallback_Timestamp c)))
  ∧ (∀ r : UmaLnurlpResponse,
        UmaLnurlpResponse_signablePayload r
        = list_byte_of_string
            (LnurlComplianceResponse_ReceiverIdentifier (UmaLnurlpResponse_Compliance r)
               +:+ "|"
               +:+ LnurlComplianceResponse_Nonce (UmaLnurlpResponse_Compliance r)
               +:+ "|"
               +:+ strconv_FormatInt
                     (LnurlComplianceResponse_Timestamp (UmaLnurlpResponse_Compliance r))))
  ∧ (∀ c : PostTransactionCallback,
        PostTransactionCallback_Nonce c = "" →
        PostTransactionCallback_signablePayload c
        = list_byte_of_string
            (String "|" (strconv_FormatInt (PostTransactionCallback_Timestamp c))))
  ∧ (∀ r : UmaLnurlpResponse,
        LnurlComplianceResponse_ReceiverIdentifier (UmaLnurlpResponse_Compliance r) = "" →
        LnurlComplianceResponse_Nonce (UmaLnurlpResponse_Compliance r) = "" →
        UmaLnurlpResponse_signablePayload r
        = list_byte_of_string
            (String "|" (String "|"
               (strconv_FormatInt
                  (LnurlComplianceResponse_Timestamp (UmaLnurlpResponse_Compliance r)))))).
Proof.
  split; [done|]. split; [done|]. split.
  - intros c Hnonce. unfold PostTransactionCallback_signablePayload.
    by rewrite Hnonce.
  - intros r Hid Hnonce. unfold UmaLnurlpResponse_signablePayload.
    by rewrite Hid, Hnonce.
Qed.

(** C8 (as amended). Canonicalization of a capability request fails exactly
    when the nonce or the timestamp is absent. Canonicalization of an invoice
    request fails exactly when the payer data is absent, or its identifier is
    absent or empty, or reading its compliance block fails, or that block is
    absent. A call that fails returns an error and no payload. *)
Theorem signablePayload_missing_material :
  (∀ q : LnurlpRequest,
      is_Err (LnurlpRequest_signablePayload q) = true
      ↔ LnurlpRequest_Nonce q = None ∨ LnurlpRequest_Timestamp q = None)
  ∧ (∀ p : PayRequest,
        is_Err (PayRequest_signablePayload p) = true
        ↔ PayRequest_PayerData p = None
          ∨ ∃ payerData, PayRequest_PayerData p = Some payerData
              ∧ (PayerData_Identifier payerData = None
                 ∨ PayerData_Identifier payerData = Some ""
                 ∨ (∃ err, PayerData_Compliance payerData = inl err)
                 ∨ PayerData_Compliance payerData = inr None))
  ∧ (∀ q : LnurlpRequest,
        is_Err (LnurlpRequest_signablePayload q) = true
        ∨ ∃ payload, LnurlpRequest_signablePayload q = Ok payload)
  ∧ (∀ p : PayRequest,
        is_Err (PayRequest_signablePayload p) = true
        ∨ ∃ payload, PayRequest_signablePayload p = Ok payload).
Proof.
  split; [apply LnurlpRequest_signablePayload_Err|]. split; [|split].
  - intros p. unfold PayRequest_signablePayload.
    destruct (PayRequest_PayerData p) as [payerData|]; [|by split; [left|]].
    destruct (PayerData_Identifier payerData) as [identifier|] eqn:Hid.
    + destruct (decide (identifier = "")) as [->|Hne].
      * split; [|done]. intros _. right. exists payerData. eauto.
      * destruct (PayerData_Compliance payerData) as [err|[compliance|]] eqn:Hc.
        -- split; [|done]. intros _. right. exists payerData. eauto 6.
        -- split; [done|]. intros [[=]|(pd & [= <-] & Hcase)].
           rewrite Hid, Hc in Hcase.
           destruct Hcase as [[=]|[[= ->]|[[err [=]]|[=]]]]. done.
        -- split; [|done]. intros _. right. exists payerData. eauto 6.
    + split; [|done]. intros _. right. exists payerData. eauto.
  - intros q. unfold LnurlpRequest_signablePayload.
    destruct (LnurlpRequest_Timestamp q), (LnurlpRequest_Nonce q); cbn; eauto.
  - intros p. unfold PayRequest_signablePayload.
    destruct (PayRequest_PayerData p) as [payerData|]; [|by left].
    destruct (PayerData_Identifier payerData) as [identifier|]; [|by left].
    destruct (decide (identifier = "")); [by left|].
    destruct (PayerData_Compliance payerData) as [err|[compliance|]];
      cbn; eauto.
Qed.

(** ** protocol.go: decoding an invoice request *)

Lemma PayRequest_UnmarshalJSON_unfold (data : bytes) (p : PayRequest) :
  PayRequest_UnmarshalJSON data p
  = match json_Unmarshal_rawReq data with
    | inl err => (p, Err err)
    | inr rawReq =>
        let p1 :=
          match as_string (rawReq !! "convert") with
          | Some convert => set_ReceivingCurrencyCode (Some convert) p
          | None => p
          end in
        match as_string (rawReq !! "amount") with
        | None => (p1, Err (errors_New "missing or invalid amount field"))
        | Some amount =>
            match strings_Split amount "." with
            | [] => (p1, Panic "index out of range")
            | [part0] =>
                match strconv_ParseInt part0 with
                | (value, Some err) => (set_Amount value p1, Err err)
                | (value, None) =>
                    PayRequest_UnmarshalJSON_rest rawReq (set_Amount value p1)
                end
            | [part0; part1] =>
                match strconv_ParseInt part0 with
                | (value, Some err) => (set_Amount value p1, Err err)
                | (value, None) =>
                    PayRequest_UnmarshalJSON_rest rawReq
                      (if (0 <? String.length part1)%nat
                       then set_SendingAmountCurrencyCode (Some part1)
                              (set_Amount value p1)
                       else set_Amount value p1)
                end
            | _ :: _ :: _ :: _ => (p1, Err (errors_New "invalid amount field"))
            end
        end
    end.
Proof.
  unfold PayRequest_UnmarshalJSON.
  destruct (json_Unmarshal_rawReq data) as [err|rawReq]; [reflexivity|].
  assert (Hfrom : ∀ p1 : PayRequest,
    (amount ←
       match as_string (rawReq !! "amount") with
       | Some amount => mret amount
       | None => st_fail (errors_New "missing or invalid amount field")
       end;
     let amountParts := strings_Split amount "." in
     if (2 <? length amountParts)%nat then
       st_fail (errors_New "invalid amount field")
     else
       part0 ← st_lift (index amountParts 0);
       let '(value, err) := strconv_ParseInt part0 in
       st_modify (set_Amount value);;
       match err with
       | Some err => st_fail err
       | None => mret ()
       end;;
       (if (length amountParts =? 2)%nat then
          part1 ← st_lift (index amountParts 1);
          if (0 <? String.length part1)%nat
          then st_modify (set_SendingAmountCurrencyCode (Some part1))
          else mret ()
        else mret ());;
       PayRequest_UnmarshalJSON_rest rawReq) p1
    = match as_string (rawReq !! "amount") with
      | None => (p1, Err (errors_New "missing or invalid amount field"))
      | Some amount =>
          match strings_Split amount "." with
          | [] => (p1, Panic "index out of range")
          | [part0] =>
              match strconv_ParseInt part0 with
              | (value, Some err) => (set_Amount value p1, Err err)
              | (value, None) =>
                  PayRequest_UnmarshalJSON_rest rawReq (set_Amount value p1)
              end
          | [part0; part1] =>
              match strconv_ParseInt part0 with
              | (value, Some err) => (set_Amount value p1, Err err)
              | (value, None) =>
                  PayRequest_UnmarshalJSON_rest rawReq
                    (if (0 <? String.length part1)%nat
                     then set_SendingAmountCurrencyCode (Some part1)
                            (set_Amount value p1)
                     else set_Amount value p1)
              end
          | _ :: _ :: _ :: _ => (p1, Err (errors_New "invalid amount field"))
          end
      end).
  { intros p1.
    destruct (as_string (rawReq !! "amount")) as [amount|]; [|reflexivity].
    cbv [mbind stateful_bind mret stateful_ret st_fail st_lift st_modify].
    destruct (strings_Split amount ".") as [|part0 [|part1 [|part2 parts]]];
      try reflexivity.
    - change (index [part0] 0) with (Ok part0). cbv beta iota.
      destruct (strconv_ParseInt part0) as [value [err|]]; reflexivity.
    - change (index [part0; part1] 0) with (Ok part0).
      change (index [part0; part1] 1) with (Ok part1). cbv beta iota.
      destruct (strconv_ParseInt part0) as [value [err|]]; [reflexivity|].
      destruct (0 <? String.length part1)%nat; reflexivity. }
  destruct (as_string (rawReq !! "convert")) as [convert|] eqn:Hconvert.
  - etransitivity; [|exact (Hfrom (set_ReceivingCurrencyCode (Some convert) p))].
    unfold mbind at 1, stateful_bind at 1. cbn [st_lift of_result].
    rewrite Hconvert. reflexivity.
  - etransitivity; [|exact (Hfrom p)].
    unfold mbind at 1, stateful_bind at 1. cbn [st_lift of_result].
    rewrite Hconvert. reflexivity.
Qed.

(** The last three blocks leave the amount and the two currency codes as
    they are, never panic, and on a failure have assigned neither the
    requested payee data nor the comment. *)
Lemma PayRequest_UnmarshalJSON_rest_spec (rawReq : gmap string any)
    (s : PayRequest) :
  let '(s', r) := PayRequest_UnmarshalJSON_rest rawReq s in
  PayRequest_Amount s' = PayRequest_Amount s
  ∧ PayRequest_SendingAmountCurrencyCode s' = PayRequest_SendingAmountCurrencyCode s
  ∧ PayRequest_ReceivingCurrencyCode s' = PayRequest_ReceivingCurrencyCode s
  ∧ (∀ msg, r ≠ Panic msg)
  ∧ (is_Ok r = false →
     PayRequest_RequestedPayeeData s' = PayRequest_RequestedPayeeData s
     ∧ PayRequest_Comment s' = PayRequest_Comment s)
  ∧ (as_map (rawReq !! "payerData") = None →
     as_map (rawReq !! "payeeData") = None → r = Ok ())
  ∧ (is_Ok r = true →
     PayRequest_Comment s'
     = match as_string (rawReq !! "comment") with
       | Some comment => Some comment
       | None => PayRequest_Comment s
       end).
Proof.
  unfold PayRequest_UnmarshalJSON_rest.
  cbv [mbind stateful_bind mret stateful_ret st_fail st_lift st_modify of_result].
  destruct (as_map (rawReq !! "payerData")) as [payerDataJson|];
    [destruct (json_Marshal_map payerDataJson) as [?|payerBytes];
     [|destruct (json_Unmarshal_PayerData payerBytes)]|];
    (destruct (as_map (rawReq !! "payeeData")) as [payeeDataJson|];
     [destruct (json_Marshal_map payeeDataJson) as [?|payeeBytes];
      [|destruct (json_Unmarshal_CounterPartyDataOptions payeeBytes)]|]);
    destruct (as_string (rawReq !! "comment")); cbn; repeat split; done.
Qed.

(** *** strings.Split *)

Lemma strings_Split_cons (s : string) (sep : ascii) :
  ∃ part0 parts, strings_Split s sep = part0 :: parts.
Proof.
  destruct s as [|c s]; cbn [strings_Split]; [eauto|].
  destruct (decide (c = sep)); [eauto|].
  destruct (strings_Split s sep); eauto.
Qed.

Lemma strings_Split_no_sep (s : string) (sep : ascii) :
  contains_byte sep s = false → strings_Split s sep = [s].
Proof.
  induction s as [|c s IH]; cbn [strings_Split contains_byte]; [done|].
  intros [Hc Hs]%orb_false_elim. apply bool_decide_eq_false in Hc.
  rewrite decide_False by done. by rewrite IH.
Qed.

Lemma strings_Split_app (s t : string) (sep : ascii) :
  contains_byte sep s = false →
  strings_Split (s +:+ String sep t) sep = s :: strings_Split t sep.
Proof.
  induction s as [|c s IH]; cbn [contains_byte].
  - intros _. change ("" +:+ String sep t) with (String sep t).
    cbn [strings_Split]. by rewrite decide_True.
  - intros [Hc Hs]%orb_false_elim. apply bool_decide_eq_false in Hc.
    rewrite string_app_cons. cbn [strings_Split].
    rewrite decide_False by done. by rewrite IH.
Qed.

(** The number of pieces is the number of separators plus one. *)
Lemma strings_Split_two_seps (s t u : string) (sep : ascii) :
  (2 < length (strings_Split (s +:+ String sep (t +:+ String sep u)) sep))%nat.
Proof.
  assert (Hgrow : ∀ a b, (length (strings_Split b sep)
                          ≤ length (strings_Split (a +:+ b) sep))%nat).
  { intros a b. induction a as [|c a IH]; [done|].
    rewrite string_app_cons. cbn [strings_Split].
    destruct (decide (c = sep)); [cbn [length]; lia|].
    destruct (strings_Split (a +:+ b) sep) eqn:Hsp; [|cbn [length] in *; lia].
    destruct (strings_Split_cons (a +:+ b) sep) as (? & ? & Hc). congruence. }
  assert (Hsep : ∀ b, length (strings_Split (String sep b) sep)
                      = S (length (strings_Split b sep))).
  { intros b. cbn [strings_Split]. by rewrite decide_True. }
  pose proof (Hgrow s (String sep (t +:+ String sep u))) as H1.
  rewrite Hsep in H1.
  pose proof (Hgrow t (String sep u)) as H2. rewrite Hsep in H2.
  destruct (strings_Split_cons u sep) as (? & ? & Hu). rewrite Hu in H2.
  cbn [length] in H2. lia.
Qed.

(** *** What strconv.ParseInt accepts *)

Lemma parseUint_loop_digits (s : string) (n v : Z) :
  parseUint_loop s n = (v, None) → forallb is_digit (list_ascii_of_string s) = true.
Proof.
  revert n. induction s as [|c s IH]; intros n; cbn [parseUint_loop]; [done|].
  cbn [list_ascii_of_string forallb].
  destruct (is_digit c); [|done].
  destruct (_ <=? n); [done|]. destruct (_ || _); [done|].
  intros Hloop. by rewrite (IH _ Hloop).
Qed.

Lemma ParseUint_decimal (s : string) (v : Z) :
  strconv_ParseUint s = (v, None) → is_decimal s = true.
Proof.
  unfold strconv_ParseUint, is_decimal. destruct s as [|c s]; [done|].
  intros Hloop%parseUint_loop_digits. by rewrite Hloop.
Qed.

Lemma ParseInt_base10 (s : string) (v : Z) :
  strconv_ParseInt s = (v, None) → is_base10_integer s = true.
Proof.
  unfold strconv_ParseInt, is_base10_integer. destruct s as [|c s]; [done|].
  assert (Huint : ∀ neg t,
    match strconv_ParseUint t with
    | (_, Some ErrSyntax) => (0, Some (strconv_NumError "ParseInt" (String c s) ErrSyntax))
    | (un, _) =>
        if negb neg && (2 ^ 63 <=? un) then
          (2 ^ 63 - 1, Some (strconv_NumError "ParseInt" (String c s) ErrRange))
        else if neg && (2 ^ 63 <? un) then
          (- 2 ^ 63, Some (strconv_NumError "ParseInt" (String c s) ErrRange))
        else (if neg then - un else un, None)
    end = (v, None) → is_decimal t = true).
  { intros neg t. destruct (strconv_ParseUint t) as [un [[]|]] eqn:Hu; [done| |].
    - replace un with maxUint64; [by destruct neg|].
      clear -Hu. unfold strconv_ParseUint in Hu. destruct t as [|d t]; [done|].
      assert (Hmax : ∀ u m w, parseUint_loop u m = (w, Some ErrRange) → w = maxUint64).
      { induction u as [|e u IHu]; intros m w; cbn [parseUint_loop]; [done|].
        destruct (is_digit e); [|done]. destruct (_ <=? m); [congruence|].
        destruct (_ || _); [congruence|]. apply IHu. }
      symmetry. eapply Hmax, Hu.
    - intros _. by eapply ParseUint_decimal. }
  destruct (decide (c = "+"%char)) as [->|Hplus].
  { change (is_sign "+") with true. cbv iota. apply (Huint false). }
  destruct (decide (c = "-"%char)) as [->|Hminus].
  { change (is_sign "-") with true. cbv iota. apply (Huint true). }
  assert (Hsign : is_sign c = false).
  { unfold is_sign.
    destruct (Z.eqb_spec (byte_code c) 43) as [Hc|_];
      [exfalso; apply Hplus, byte_code_inj; by rewrite Hc|].
    destruct (Z.eqb_spec (byte_code c) 45) as [Hc|_];
      [exfalso; apply Hminus, byte_code_inj; by rewrite Hc|]. done. }
  rewrite Hsign. apply (Huint false).
Qed.

(** What [FormatInt] writes has no ['.']. *)
Lemma format_digits_no_dot (fuel : nat) (n : Z) (acc : string) :
  contains_byte "." acc = false → contains_byte "." (format_digits fuel n acc) = false.
Proof.
  assert (Hdigit : ∀ m, bool_decide (digit_char (m mod 10) = "."%char) = false).
  { intros m. apply bool_decide_eq_false. intros Heq.
    pose proof (digit_char_code (m mod 10) (Z.mod_pos_bound m 10 ltac:(lia))) as Hc.
    rewrite Heq in Hc. change (byte_code ".") with 46 in Hc.
    pose proof (Z.mod_pos_bound m 10 ltac:(lia)). lia. }
  revert n acc. induction fuel as [|fuel IH]; intros n acc Hacc; cbn [format_digits].
  - cbn [contains_byte]. by rewrite Hdigit, Hacc.
  - destruct (n <? 10).
    + cbn [contains_byte]. by rewrite Hdigit, Hacc.
    + apply IH. cbn [contains_byte]. by rewrite Hdigit, Hacc.
Qed.

Lemma FormatInt_no_dot (i : Z) : contains_byte "." (strconv_FormatInt i) = false.
Proof.
  unfold strconv_FormatInt, strconv_FormatUint.
  destruct (i <? 0); [cbn [contains_byte]|]; by rewrite ?format_digits_no_dot.
Qed.

(** *** The hybrid amount field *)

Lemma PayRequest_MarshalJSON_amount (p : PayRequest) (out : bytes) :
  PayRequest_MarshalJSON p = Ok out →
  ∃ rest,
    string_of_list_byte out
    = amount_key
        +:+ spec_amount_field (PayRequest_Amount p)
              (PayRequest_SendingAmountCurrencyCode p)
        +:+ dquote +:+ rest.
Proof.
  unfold PayRequest_MarshalJSON, spec_amount_field, amount_key.
  cbv [mbind outcome_mbind outcome_bind of_result].
  destruct (PayRequest_SendingAmountCurrencyCode p) as [code|];
    (destruct (PayRequest_PayerData p) as [payerData|];
     [destruct (json_Marshal_PayerData payerData); [done|]|]);
    destruct (PayRequest_ReceivingCurrencyCode p);
    (destruct (PayRequest_RequestedPayeeData p) as [payeeData|];
     [destruct (json_Marshal_CounterPartyDataOptions payeeData); [done|]|]);
    destruct (PayRequest_Comment p);
    intros [= <-]; rewrite string_of_list_byte_of_string; eexists;
    rewrite ?string_app_assoc; reflexivity.
Qed.

Lemma PayRequest_MarshalJSON_plain (p : PayRequest) :
  PayRequest_PayerData p = None → PayRequest_RequestedPayeeData p = None →
  is_Ok (PayRequest_MarshalJSON p) = true.
Proof.
  intros Hpd Hrpd. unfold PayRequest_MarshalJSON. by rewrite Hpd, Hrpd.
Qed.

Lemma PayRequest_UnmarshalJSON_one_part (data : bytes) (rawReq : gmap string any)
    (p : PayRequest) (amount part0 : string) (value : Z) :
  json_Unmarshal_rawReq data = inr rawReq →
  as_string (rawReq !! "amount") = Some amount →
  strings_Split amount "." = [part0] →
  strconv_ParseInt part0 = (value, None) →
  PayRequest_Amount (PayRequest_UnmarshalJSON data p).1 = value
  ∧ PayRequest_SendingAmountCurrencyCode (PayRequest_UnmarshalJSON data p).1
    = PayRequest_SendingAmountCurrencyCode p.
Proof.
  intros Hjson Hamount Hsplit Hparse.
  rewrite PayRequest_UnmarshalJSON_unfold, Hjson, Hamount. cbv zeta.
  rewrite Hsplit, Hparse.
  match goal with
  | |- context [PayRequest_UnmarshalJSON_rest rawReq ?s] =>
      pose proof (PayRequest_UnmarshalJSON_rest_spec rawReq s) as Hrest;
      destruct (PayRequest_UnmarshalJSON_rest rawReq s) as [s' r]
  end.
  cbn [fst snd]. destruct Hrest as (-> & -> & _). cbn.
  by destruct (as_string (rawReq !! "convert")).
Qed.

Lemma PayRequest_UnmarshalJSON_two_parts (data : bytes)
    (rawReq : gmap string any) (p : PayRequest) (amount part0 part1 : string)
    (value : Z) :
  json_Unmarshal_rawReq data = inr rawReq →
  as_string (rawReq !! "amount") = Some amount →
  strings_Split amount "." = [part0; part1] →
  strconv_ParseInt part0 = (value, None) →
  PayRequest_Amount (PayRequest_UnmarshalJSON data p).1 = value
  ∧ PayRequest_SendingAmountCurrencyCode (PayRequest_UnmarshalJSON data p).1
    = if decide (part1 = "") then PayRequest_SendingAmountCurrencyCode p
      else Some part1.
Proof.
  intros Hjson Hamount Hsplit Hparse.
  rewrite PayRequest_UnmarshalJSON_unfold, Hjson, Hamount. cbv zeta.
  rewrite Hsplit, Hparse.
  match goal with
  | |- context [PayRequest_UnmarshalJSON_rest rawReq ?s] =>
      pose proof (PayRequest_UnmarshalJSON_rest_spec rawReq s) as Hrest;
      destruct (PayRequest_UnmarshalJSON_rest rawReq s) as [s' r]
  end.
  cbn [fst snd]. destruct Hrest as (-> & -> & _).
  destruct part1 as [|c part1]; cbn;
    by destruct (as_string (rawReq !! "convert")).
Qed.

(** Whether the decoding succeeds, for a document without payer and payee
    data objects. *)
Lemma PayRequest_UnmarshalJSON_Ok (data : bytes) (rawReq : gmap string any)
    (p : PayRequest) (amount part0 : string) (parts : list string) (value : Z) :
  json_Unmarshal_rawReq data = inr rawReq →
  as_string (rawReq !! "amount") = Some amount →
  strings_Split amount "." = part0 :: parts →
  (length parts ≤ 1)%nat →
  strconv_ParseInt part0 = (value, None) →
  as_map (rawReq !! "payerData") = None →
  as_map (rawReq !! "payeeData") = None →
  (PayRequest_UnmarshalJSON data p).2 = Ok ().
Proof.
  intros Hjson Hamount Hsplit Hlen Hparse Hpayer Hpayee.
  rewrite PayRequest_UnmarshalJSON_unfold, Hjson, Hamount. cbv zeta.
  rewrite Hsplit.
  destruct parts as [|part1 [|part2 parts]]; [| |cbn in Hlen; lia];
    rewrite Hparse;
    match goal with
    | |- context [PayRequest_UnmarshalJSON_rest rawReq ?s] =>
        pose proof (PayRequest_UnmarshalJSON_rest_spec rawReq s) as Hrest;
        destruct (PayRequest_UnmarshalJSON_rest rawReq s) as [s' r]
    end;
    cbn [fst snd]; destruct Hrest as (_ & _ & _ & _ & _ & Hok & _); by apply Hok.
Qed.

(** C1. The hybrid amount field. An invoice request with amount 1000 and
    sending currency USD is written with the amount field "1000.USD", and
    the writing succeeds when there are no payer and payee data to encode;
    decoding the amount "1000.USD" gives the amount 1000 and the currency
    USD; decoding "1000" or "1000." gives the amount 1000 and assigns no
    currency code, so the code is absent in a request that had none (the
    zero value); an amount with two or more ['.'], such as "1000.USD.EUR",
    fails with the error "invalid amount field"; a first
    piece that is not a base-10 integer is an error; and in general the
    amount and the currency code that [MarshalJSON] writes are the ones
    [UnmarshalJSON] reads back. *)
Theorem PayRequest_hybrid_amount :
  (∀ (p : PayRequest) (out : bytes),
      PayRequest_Amount p = 1000 →
      PayRequest_SendingAmountCurrencyCode p = Some "USD" →
      PayRequest_MarshalJSON p = Ok out →
      ∃ rest, string_of_list_byte out
              = amount_key +:+ "1000.USD" +:+ dquote +:+ rest)
  ∧ (∀ p : PayRequest,
        PayRequest_PayerData p = None → PayRequest_RequestedPayeeData p = None →
        is_Ok (PayRequest_MarshalJSON p) = true)
  ∧ (∀ (data : bytes) (rawReq : gmap string any) (p : PayRequest),
        json_Unmarshal_rawReq data = inr rawReq →
        as_string (rawReq !! "amount") = Some "1000.USD" →
        PayRequest_Amount (PayRequest_UnmarshalJSON data p).1 = 1000
        ∧ PayRequest_SendingAmountCurrencyCode (PayRequest_UnmarshalJSON data p).1
          = Some "USD")
  ∧ (∀ (data : bytes) (rawReq : gmap string any) (p : PayRequest) (amount : string),
        json_Unmarshal_rawReq data = inr rawReq →
        as_string (rawReq !! "amount") = Some amount →
        amount = "1000" ∨ amount = "1000." →
        PayRequest_Amount (PayRequest_UnmarshalJSON data p).1 = 1000
        ∧ PayRequest_SendingAmountCurrencyCode (PayRequest_UnmarshalJSON data p).1
          = PayRequest_SendingAmountCurrencyCode p)
  ∧ (∀ (data : bytes) (rawReq : gmap string any) (p : PayRequest)
       (amount code more : string),
        json_Unmarshal_rawReq data = inr rawReq →
        as_string (rawReq !! "amount")
        = Some (amount +:+ "." +:+ code +:+ "." +:+ more) →
        (PayRequest_UnmarshalJSON data p).2 = Err (errors_New "invalid amount field"))
  ∧ (∀ (data : bytes) (rawReq : gmap string any) (p : PayRequest)
       (amount part0 : string) (parts : list string),
        json_Unmarshal_rawReq data = inr rawReq →
        as_string (rawReq !! "amount") = Some amount →
        strings_Split amount "." = part0 :: parts →
        is_base10_integer part0 = false →
        is_Err (PayRequest_UnmarshalJSON data p).2 = true)
  ∧ (∀ (data : bytes) (rawReq : gmap string any) (p : PayRequest)
       (amount part0 : string) (parts : list string) (value : Z),
        json_Unmarshal_rawReq data = inr rawReq →
        as_string (rawReq !! "amount") = Some amount →
        strings_Split amount "." = part0 :: parts →
        (length parts ≤ 1)%nat →
        strconv_ParseInt part0 = (value, None) →
        as_map (rawReq !! "payerData") = None →
        as_map (rawReq !! "payeeData") = None →
        (PayRequest_UnmarshalJSON data p).2 = Ok ())
  ∧ (∀ (data : bytes) (rawReq : gmap string any) (p : PayRequest)
       (amount : Z) (code : option string),
        json_Unmarshal_rawReq data = inr rawReq →
        int64_range amount →
        (∀ c, code = Some c → c ≠ "" ∧ contains_byte "." c = false) →
        as_string (rawReq !! "amount") = Some (spec_amount_field amount code) →
        PayRequest_Amount (PayRequest_UnmarshalJSON data p).1 = amount
        ∧ PayRequest_SendingAmountCurrencyCode (PayRequest_UnmarshalJSON data p).1
          = match code with
            | Some c => Some c
            | None => PayRequest_SendingAmountCurrencyCode p
            end).
Proof.
  repeat apply conj.
  - intros p out Hamount Hcode Hout.
    destruct (PayRequest_MarshalJSON_amount p out Hout) as [rest Hrest].
    exists rest. rewrite Hrest, Hamount, Hcode. reflexivity.
  - apply PayRequest_MarshalJSON_plain.
  - intros data rawReq p Hjson Hamount.
    by apply (PayRequest_UnmarshalJSON_two_parts data rawReq p "1000.USD"
                "1000" "USD" 1000).
  - intros data rawReq p amount Hjson Hamount [-> | ->].
    + by apply (PayRequest_UnmarshalJSON_one_part data rawReq p "1000" "1000" 1000).
    + by apply (PayRequest_UnmarshalJSON_two_parts data rawReq p "1000."
                  "1000" "" 1000).
  - intros data rawReq p amount code more Hjson Hamount.
    pose proof (strings_Split_two_seps amount code more ".") as Hlen.
    rewrite PayRequest_UnmarshalJSON_unfold, Hjson, Hamount. cbv zeta.
    change (amount +:+ "." +:+ code +:+ "." +:+ more)
      with (amount +:+ String "." (code +:+ String "." more)).
    destruct (strings_Split _ ".") as [|part0 [|part1 [|part2 parts]]];
      cbn in Hlen; try lia. done.
  - intros data rawReq p amount part0 parts Hjson Hamount Hsplit Hnot.
    rewrite PayRequest_UnmarshalJSON_unfold, Hjson, Hamount. cbv zeta.
    rewrite Hsplit.
    destruct (strconv_ParseInt part0) as [value [err|]] eqn:Hparse.
    + by destruct parts as [|part1 [|part2 parts]].
    + apply ParseInt_base10 in Hparse. congruence.
  - apply PayRequest_UnmarshalJSON_Ok.
  - intros data rawReq p amount code Hjson Hrange Hcode Hamount.
    destruct code as [c|]; unfold spec_amount_field in Hamount.
    + destruct (Hcode c eq_refl) as [Hne Hdot].
      replace (Some c) with (if decide (c = "")
                             then PayRequest_SendingAmountCurrencyCode p
                             else Some c) by (by rewrite decide_False).
      apply (PayRequest_UnmarshalJSON_two_parts data rawReq p _
               (strconv_FormatInt amount) c amount Hjson Hamount).
      * change ("." +:+ c) with (String "." c).
        rewrite strings_Split_app by apply FormatInt_no_dot.
        by rewrite strings_Split_no_sep.
      * by apply ParseInt_FormatInt.
    + apply (PayRequest_UnmarshalJSON_one_part data rawReq p _
               (strconv_FormatInt amount) amount Hjson Hamount).
      * apply strings_Split_no_sep, FormatInt_no_dot.
      * by apply ParseInt_FormatInt.
Qed.

(** *** Decoding that fails *)

(** Case analysis on whether the second piece of the amount is empty. *)
Ltac case_second_piece :=
  try match goal with
      | |- context [(0 <? String.length ?s)%nat] =>
          destruct (0 <? String.length s)%nat
      end.

(** C9 (as amended). When the document is not JSON, [UnmarshalJSON] fails
    and leaves the receiver as it was. When it fails later, the fields
    RequestedPayeeData and Comment are as they were, and the fields assigned
    before the failing step keep their new values: with no usable amount
    field the receiving currency code has already been taken from "convert".
    The decoding never panics, and when it succeeds the amount is the one
    read from the first piece of the amount field, and the receiving currency
    code and the comment of the document are stored. *)
Theorem PayRequest_UnmarshalJSON_failure :
  (∀ (data : bytes) (p : PayRequest) (err : error),
      json_Unmarshal_rawReq data = inl err →
      PayRequest_UnmarshalJSON data p = (p, Err err))
  ∧ (∀ (data : bytes) (p : PayRequest),
        is_Ok (PayRequest_UnmarshalJSON data p).2 = false →
        PayRequest_RequestedPayeeData (PayRequest_UnmarshalJSON data p).1
        = PayRequest_RequestedPayeeData p
        ∧ PayRequest_Comment (PayRequest_UnmarshalJSON data p).1
          = PayRequest_Comment p)
  ∧ (∀ (data : bytes) (rawReq : gmap string any) (p : PayRequest),
        json_Unmarshal_rawReq data = inr rawReq →
        as_string (rawReq !! "amount") = None →
        PayRequest_UnmarshalJSON data p
        = (match as_string (rawReq !! "convert") with
           | Some convert => set_ReceivingCurrencyCode (Some convert) p
           | None => p
           end,
           Err (errors_New "missing or invalid amount field")))
  ∧ (∀ (data : bytes) (p : PayRequest) (msg : string),
        (PayRequest_UnmarshalJSON data p).2 ≠ Panic msg)
  ∧ (∀ (data : bytes) (rawReq : gmap string any) (p : PayRequest),
        json_Unmarshal_rawReq data = inr rawReq →
        (PayRequest_UnmarshalJSON data p).2 = Ok () →
        (∃ amount part0 parts,
            as_string (rawReq !! "amount") = Some amount
            ∧ strings_Split amount "." = part0 :: parts
            ∧ strconv_ParseInt part0
              = (PayRequest_Amount (PayRequest_UnmarshalJSON data p).1, None))
        ∧ PayRequest_ReceivingCurrencyCode (PayRequest_UnmarshalJSON data p).1
          = match as_string (rawReq !! "convert") with
            | Some convert => Some convert
            | None => PayRequest_ReceivingCurrencyCode p
            end
        ∧ PayRequest_Comment (PayRequest_UnmarshalJSON data p).1
          = match as_string (rawReq !! "comment") with
            | Some comment => Some comment
            | None => PayRequest_Comment p
            end).
Proof.
  assert (Hkeep : ∀ (rawReq : gmap string any) (p : PayRequest),
    let p1 := match as_string (rawReq !! "convert") with
              | Some convert => set_ReceivingCurrencyCode (Some convert) p
              | None => p
              end in
    PayRequest_RequestedPayeeData p1 = PayRequest_RequestedPayeeData p
    ∧ PayRequest_Comment p1 = PayRequest_Comment p
    ∧ PayRequest_ReceivingCurrencyCode p1
      = match as_string (rawReq !! "convert") with
        | Some convert => Some convert
        | None => PayRequest_ReceivingCurrencyCode p
        end).
  { intros rawReq p. by destruct (as_string (rawReq !! "convert")). }
  repeat apply conj.
  - intros data p err Hjson.
    by rewrite PayRequest_UnmarshalJSON_unfold, Hjson.
  - intros data p. rewrite PayRequest_UnmarshalJSON_unfold.
    destruct (json_Unmarshal_rawReq data) as [err|rawReq]; [done|].
    pose proof (Hkeep rawReq p) as Hp1. cbv zeta in Hp1 |- *.
    set (p1 := match as_string (rawReq !! "convert") with
               | Some convert => set_ReceivingCurrencyCode (Some convert) p
               | None => p
               end) in *.
    destruct Hp1 as (Hrpd & Hcomment & _).
    destruct (as_string (rawReq !! "amount")) as [amount|]; [|done].
    destruct (strings_Split amount ".") as [|part0 [|part1 [|part2 parts]]];
      [done| | |done];
      (destruct (strconv_ParseInt part0) as [value [err|]]; [done|]);
      match goal with
      | |- context [PayRequest_UnmarshalJSON_rest rawReq ?s] =>
          pose proof (PayRequest_UnmarshalJSON_rest_spec rawReq s) as Hrest;
          destruct (PayRequest_UnmarshalJSON_rest rawReq s) as [s' r]
      end;
      cbn [fst snd]; destruct Hrest as (_ & _ & _ & _ & Hfail & _);
      intros [-> ->]%Hfail; rewrite <- Hrpd, <- Hcomment;
      by case_second_piece.
  - intros data rawReq p Hjson Hamount.
    by rewrite PayRequest_UnmarshalJSON_unfold, Hjson, Hamount.
  - intros data p msg. rewrite PayRequest_UnmarshalJSON_unfold.
    destruct (json_Unmarshal_rawReq data) as [err|rawReq]; [done|]. cbv zeta.
    destruct (as_string (rawReq !! "amount")) as [amount|]; [|done].
    destruct (strings_Split_cons amount ".") as (part0 & parts & ->).
    destruct parts as [|part1 [|part2 parts]]; [| |done];
      (destruct (strconv_ParseInt part0) as [value [err|]]; [done|]);
      match goal with
      | |- context [PayRequest_UnmarshalJSON_rest rawReq ?s] =>
          pose proof (PayRequest_UnmarshalJSON_rest_spec rawReq s) as Hrest;
          destruct (PayRequest_UnmarshalJSON_rest rawReq s) as [s' r]
      end;
      cbn [fst snd]; destruct Hrest as (_ & _ & _ & Hpanic & _); apply Hpanic.
  - intros data rawReq p Hjson. rewrite PayRequest_UnmarshalJSON_unfold, Hjson.
    pose proof (Hkeep rawReq p) as Hp1. cbv zeta in Hp1 |- *.
    set (p1 := match as_string (rawReq !! "convert") with
               | Some convert => set_ReceivingCurrencyCode (Some convert) p
               | None => p
               end) in *.
    destruct Hp1 as (_ & Hcomment & Hconvert).
    destruct (as_string (rawReq !! "amount")) as [amount|]; [|done].
    destruct (strings_Split amount ".") as [|part0 [|part1 [|part2 parts]]]
      eqn:Hsplit; [done| | |done];
      (destruct (strconv_ParseInt part0) as [value [err|]] eqn:Hparse; [done|]);
      match goal with
      | |- context [PayRequest_UnmarshalJSON_rest rawReq ?s] =>
          pose proof (PayRequest_UnmarshalJSON_rest_spec rawReq s) as Hrest;
          destruct (PayRequest_UnmarshalJSON_rest rawReq s) as [s' r]
      end;
      cbn [fst snd];
      destruct Hrest as (Hamount & _ & Hreceiving & _ & _ & _ & Hstored);
      intros ->; rewrite Hamount, Hreceiving, (Hstored eq_refl), <- Hconvert,
        <- Hcomment;
      (split; [exists amount, part0; eexists; split; [done|];
               split; [exact Hsplit|]; by case_second_piece|]);
      by case_second_piece.
Qed.

(** ** protocol.go: the URL of a capability request *)

Lemma LnurlpRequest_EncodeToUrl_invalid (q : LnurlpRequest) :
  length (strings_Split (LnurlpRequest_ReceiverAddress q) "@") ≠ 2%nat →
  LnurlpRequest_EncodeToUrl q = Err (errors_New "invalid receiver address").
Proof.
  intros Hlen. unfold LnurlpRequest_EncodeToUrl.
  destruct (Nat.eqb_spec (length (strings_Split (LnurlpRequest_ReceiverAddress q) "@")) 2);
    done.
Qed.

(** A request that is not an UMA request: no query parameter. *)
Lemma LnurlpRequest_EncodeToUrl_plain (q : LnurlpRequest) (localpart host : string) :
  strings_Split (LnurlpRequest_ReceiverAddress q) "@" = [localpart; host] →
  LnurlpRequest_IsUmaRequest q = false →
  LnurlpRequest_EncodeToUrl q
  = Ok {| URL_Scheme := if IsDomainLocalhost host then "http" else "https";
          URL_Host := host;
          URL_Path := "/.well-known/lnurlp/" +:+ localpart;
          URL_RawQuery := "" |}.
Proof.
  intros Hsplit Huma. unfold LnurlpRequest_EncodeToUrl.
  rewrite Hsplit, Huma. reflexivity.
Qed.

(** An UMA request with the travel-rule flag: the six parameters. *)
Lemma LnurlpRequest_EncodeToUrl_uma (q : LnurlpRequest) (localpart host : string)
    (signature vaspDomain nonce umaVersion : string) (flag : bool)
    (timestamp : time_Time) :
  strings_Split (LnurlpRequest_ReceiverAddress q) "@" = [localpart; host] →
  LnurlpRequest_Signature q = Some signature →
  LnurlpRequest_VaspDomain q = Some vaspDomain →
  LnurlpRequest_Nonce q = Some nonce →
  LnurlpRequest_Timestamp q = Some timestamp →
  LnurlpRequest_UmaVersion q = Some umaVersion →
  LnurlpRequest_IsSubjectToTravelRule q = Some flag →
  LnurlpRequest_EncodeToUrl q
  = Ok {| URL_Scheme := if IsDomainLocalhost host then "http" else "https";
          URL_Host := host;
          URL_Path := "/.well-known/lnurlp/" +:+ localpart;
          URL_RawQuery :=
            Values_Encode (uma_queryParams signature vaspDomain nonce flag
                                           timestamp umaVersion) |}.
Proof.
  intros Hsplit Hsig Hdom Hnonce Hts Hver Hflag.
  unfold LnurlpRequest_EncodeToUrl, LnurlpRequest_IsUmaRequest.
  rewrite Hsplit, Hsig, Hdom, Hnonce, Hts, Hver, Hflag. reflexivity.
Qed.

(** C3 (the defect). For an UMA request (nonce, signature, sender domain,
    timestamp and version present) whose optional travel-rule flag is
    absent, and whose receiver address has one ['@'], [EncodeToUrl]
    dereferences the nil flag and panics: it returns no URL, where the
    claim has it succeed with the flag encoded as "false". *)
Theorem LnurlpRequest_EncodeToUrl_nil_flag (q : LnurlpRequest)
    (localpart host : string) :
  strings_Split (LnurlpRequest_ReceiverAddress q) "@" = [localpart; host] →
  LnurlpRequest_IsUmaRequest q = true →
  LnurlpRequest_IsSubjectToTravelRule q = None →
  LnurlpRequest_EncodeToUrl q
  = Panic "invalid memory address or nil pointer dereference".
Proof.
  intros Hsplit Huma Hflag.
  destruct (proj1 (LnurlpRequest_IsUmaRequest_iff q) Huma)
    as ([nonce Hnonce] & [signature Hsig] & [vaspDomain Hdom] & _ & _).
  unfold LnurlpRequest_EncodeToUrl.
  rewrite Hsplit, Huma, Hsig, Hdom, Hnonce, Hflag. reflexivity.
Qed.

End ProtocolProperties.

(** ** The theorems at the sample inputs *)

(** The defect of C3 at the sample request without the travel-rule flag. *)
Lemma LnurlpRequest_EncodeToUrl_nil_flag_witness :
  LnurlpRequest_IsUmaRequest Sample.capability_request_no_flag = true
  ∧ LnurlpRequest_AsUmaRequest Sample.capability_request_no_flag ≠ Ok None
  ∧ LnurlpRequest_EncodeToUrl Sample.capability_request_no_flag
    = Panic "invalid memory address or nil pointer dereference".
Proof.
  split; [reflexivity|]. split; [discriminate|].
  apply (LnurlpRequest_EncodeToUrl_nil_flag (H := Sample.extern)
           Sample.capability_request_no_flag "alice" "vasp.com");
    reflexivity.
Defined.

(** With the flag, the same request encodes to the URL with the six
    parameters, sorted by key. *)
Example LnurlpRequest_EncodeToUrl_sample :
  LnurlpRequest_EncodeToUrl Sample.capability_request
  = Ok {| URL_Scheme := "https";
          URL_Host := "vasp.com";
          URL_Path := "/.well-known/lnurlp/alice";
          URL_RawQuery :=
            "isSubjectToTravelRule=true&nonce=abc&signature=c2ln"
            +:+ "&timestamp=1700000000&umaVersion=1.0&vaspDomain=vasp1.com" |}.
Proof. vm_compute. reflexivity. Qed.

(** C2 at the sample capability request. *)
Lemma signablePayload_canonical_witness :
  LnurlpRequest_signablePayload Sample.capability_request
  = Ok (list_byte_of_string "alice@vasp.com|abc|1700000000").
Proof.
  apply (proj2 (proj2 (proj2 (proj2
           (signablePayload_canonical (H := Sample.extern))))));
    reflexivity.
Defined.

(** C10 at a callback with an empty nonce. *)
Lemma strict_signablePayload_total_witness :
  PostTransactionCallback_signablePayload Sample.callback_empty_nonce
  = list_byte_of_string "|1700000000".
Proof.
  apply (proj1 (proj2 (proj2 (strict_signablePayload_total (H := Sample.extern))))
           Sample.callback_empty_nonce).
  reflexivity.
Defined.

(** C8, as stated, fails where the compliance block cannot be read: the
    payer data is present, its identifier is present and not empty, its
    compliance block is not reported absent, and canonicalization fails. *)
Lemma PayRequest_signablePayload_unreadable_compliance :
  is_Err (PayRequest_signablePayload Sample.request_unreadable_compliance) = true
  ∧ ∃ payerData,
      PayRequest_PayerData Sample.request_unreadable_compliance = Some payerData
      ∧ PayerData_Identifier payerData = Some "alice@vasp.com"
      ∧ PayerData_Compliance payerData ≠ inr None.
Proof.
  split; [reflexivity|]. eexists. split; [reflexivity|].
  split; [reflexivity|discriminate].
Qed.

(** C8 (as amended) at the zero request, which has no payer data, and at
    the request whose compliance block cannot be read. *)
Lemma signablePayload_missing_material_witness :
  is_Err (PayRequest_signablePayload (H := Sample.extern) PayRequest_zero) = true
  ∧ is_Err (PayRequest_signablePayload Sample.request_unreadable_compliance) = true.
Proof.
  pose proof (proj1 (proj2 (signablePayload_missing_material (H := Sample.extern))))
    as Hiff.
  split.
  - apply Hiff. left. reflexivity.
  - apply Hiff. right. eexists. split; [reflexivity|].
    right. right. left. eexists. reflexivity.
Defined.

(** C1 at the sample documents: what [MarshalJSON] writes for the amount
    1000 in USD, and what [UnmarshalJSON] reads from the amounts of the
    claim into a new request. *)
Lemma PayRequest_hybrid_amount_witness :
  PayRequest_MarshalJSON Sample.request_1000_USD = Ok (Sample.doc_amount "1000.USD")
  ∧ (∃ rest, string_of_list_byte (Sample.doc_amount "1000.USD")
             = amount_key +:+ "1000.USD" +:+ dquote +:+ rest)
  ∧ PayRequest_UnmarshalJSON (Sample.doc_amount "1000.USD") PayRequest_zero
    = (Sample.request_1000_USD, Ok ())
  ∧ PayRequest_SendingAmountCurrencyCode
      (PayRequest_UnmarshalJSON (Sample.doc1 "amount" "1000") PayRequest_zero).1
    = None
  ∧ PayRequest_SendingAmountCurrencyCode
      (PayRequest_UnmarshalJSON (Sample.doc1 "amount" "1000.") PayRequest_zero).1
    = None
  ∧ (PayRequest_UnmarshalJSON (Sample.doc1 "amount" "1000.USD.EUR") PayRequest_zero).2
    = Err (errors_New "invalid amount field")
  ∧ is_Err (PayRequest_UnmarshalJSON (Sample.doc1 "amount" "12x") PayRequest_zero).2
    = true.
Proof.
  destruct (PayRequest_hybrid_amount (H := Sample.extern))
    as (Hwrite & _ & _ & Hplain & Hmany & Hleft & _ & _).
  split; [reflexivity|]. split.
  { apply (Hwrite Sample.request_1000_USD); reflexivity. }
  split; [reflexivity|]. split.
  { apply (Hplain (Sample.doc1 "amount" "1000") {[ "amount" := any_string "1000" ]}
             PayRequest_zero "1000" eq_refl eq_refl). left. reflexivity. }
  split.
  { apply (Hplain (Sample.doc1 "amount" "1000.") {[ "amount" := any_string "1000." ]}
             PayRequest_zero "1000." eq_refl eq_refl). right. reflexivity. }
  split.
  { apply (Hmany (Sample.doc1 "amount" "1000.USD.EUR")
             {[ "amount" := any_string "1000.USD.EUR" ]}
             PayRequest_zero "1000" "USD" "EUR" eq_refl eq_refl). }
  apply (Hleft (Sample.doc1 "amount" "12x") {[ "amount" := any_string "12x" ]}
           PayRequest_zero "12x" "12x" [] eq_refl eq_refl eq_refl eq_refl).
Defined.

(** C9, as stated, fails: a document with "convert" and no amount is
    rejected after the receiving currency code has been assigned; a document
    with "convert" and the amount "12x" is rejected after the receiving
    currency code and the amount have been assigned. *)
Lemma PayRequest_UnmarshalJSON_partial_update :
  PayRequest_UnmarshalJSON (Sample.doc1 "convert" "USD") PayRequest_zero
  = (set_ReceivingCurrencyCode (Some "USD") PayRequest_zero,
     Err (errors_New "missing or invalid amount field"))
  ∧ set_ReceivingCurrencyCode (Some "USD") PayRequest_zero
    ≠ (PayRequest_zero (H := Sample.extern))
  ∧ is_Err (PayRequest_UnmarshalJSON (Sample.doc2 "convert" "EUR" "amount" "12x")
                                     Sample.request_1000_USD).2 = true
  ∧ PayRequest_Amount
      (PayRequest_UnmarshalJSON (Sample.doc2 "convert" "EUR" "amount" "12x")
                                Sample.request_1000_USD).1 = 0
  ∧ PayRequest_Amount Sample.request_1000_USD = 1000.
Proof.
  split; [reflexivity|]. split; [discriminate|]. repeat split; reflexivity.
Qed.

(** C9 (as amended) at an input that is not JSON and at a document whose
    amount is rejected. *)
Lemma PayRequest_UnmarshalJSON_failure_witness :
  PayRequest_UnmarshalJSON [] Sample.request_1000_USD
  = (Sample.request_1000_USD, Err (json_Error "not a sample document"))
  ∧ PayRequest_Comment
      (PayRequest_UnmarshalJSON (Sample.doc2 "convert" "EUR" "amount" "12x")
                                Sample.request_1000_USD).1 = None.
Proof.
  destruct (PayRequest_UnmarshalJSON_failure (H := Sample.extern))
    as (Hjson & Hkeep & _).
  split.
  - apply Hjson. reflexivity.
  - apply (Hkeep (Sample.doc2 "convert" "EUR" "amount" "12x")
             Sample.request_1000_USD). reflexivity.
Defined.

(** * Further properties of the code *)

(** ** strings.Split and strings.Join *)

Lemma strings_Split_length (s : string) (sep : ascii) :
  length (strings_Split s sep) = S (count_byte sep s).
Proof.
  induction s as [|c s IH]; [done|]. cbn [strings_Split count_byte].
  destruct (decide (c = sep)); cbn [length]; [by rewrite IH|].
  destruct (strings_Split s sep) as [|w ws]; cbn [length] in *; lia.
Qed.

Lemma strings_Split_pieces (s : string) (sep : ascii) :
  Forall (λ w, contains_byte sep w = false) (strings_Split s sep).
Proof.
  induction s as [|c s IH]; cbn [strings_Split]; [by repeat constructor|].
  destruct (decide (c = sep)) as [->|Hne]; [by constructor|].
  destruct (strings_Split s sep) as [|w ws].
  - repeat constructor. cbn [contains_byte]. by rewrite bool_decide_eq_false_2.
  - inversion IH as [|? ? Hw Hws]; subst. constructor; [|done].
    cbn [contains_byte]. by rewrite bool_decide_eq_false_2, Hw.
Qed.

Lemma strings_Join_cons (e e' : string) (rest : list string) (sep : string) :
  strings_Join (e :: e' :: rest) sep = e +:+ sep +:+ strings_Join (e' :: rest) sep.
Proof. done. Qed.

Lemma strings_Join_Split (s : string) (sep : ascii) :
  strings_Join (strings_Split s sep) (String sep "") = s.
Proof.
  induction s as [|c s IH]; [done|]. cbn [strings_Split].
  destruct (strings_Split_cons s sep) as (w & ws & Hsplit).
  rewrite Hsplit in *. destruct (decide (c = sep)) as [->|Hne].
  - by rewrite strings_Join_cons, IH.
  - destruct ws as [|w' ws].
    + cbn [strings_Join] in *. by rewrite IH.
    + rewrite strings_Join_cons in *. by rewrite string_app_cons, IH.
Qed.

Lemma strings_Split_Join (pieces : list string) (sep : ascii) :
  pieces ≠ [] →
  Forall (λ w, contains_byte sep w = false) pieces →
  strings_Split (strings_Join pieces (String sep "")) sep = pieces.
Proof.
  induction pieces as [|w pieces IH]; [done|]. intros _ Hall.
  inversion Hall as [|? ? Hw Hrest]; subst.
  destruct pieces as [|w' pieces].
  - cbn [strings_Join]. by apply strings_Split_no_sep.
  - rewrite strings_Join_cons.
    change (String sep "" +:+ strings_Join (w' :: pieces) (String sep ""))
      with (String sep (strings_Join (w' :: pieces) (String sep ""))).
    rewrite strings_Split_app by done. by rewrite IH.
Qed.

(** ** version.go: lookups and selection *)

Lemma GetHighest_unsupported (m : Z) :
  m ∉ GetSupportedMajorVersions →
  GetHighestSupportedVersionForMajorVersion m = None.
Proof.
  rewrite GetSupportedMajorVersions_elem. intros Hm.
  unfold GetHighestSupportedVersionForMajorVersion, MAJOR_VERSION,
    backcompatVersions.
  rewrite decide_False by lia. cbn [first_backcompat].
  replace (ParseVersion "0.3") with (Ok {| Major := 0; Minor := 3 |})
    by (vm_compute; reflexivity).
  cbn [Major]. rewrite decide_False by lia. done.
Qed.

Lemma GetHighest_found (m : Z) (v : ParsedVersion) :
  GetHighestSupportedVersionForMajorVersion m = Some v →
  m ∈ GetSupportedMajorVersions
  ∧ Major v = m ∧ ParseVersion (ParsedVersion_String v) = Ok v.
Proof.
  intros Hv.
  destruct (decide (m ∈ GetSupportedMajorVersions)) as [Hm|Hm];
    [|by rewrite GetHighest_unsupported in Hv].
  split; [done|].
  apply GetSupportedMajorVersions_elem in Hm as [-> | ->];
    vm_compute in Hv; injection Hv as <-; split; try done;
    vm_compute; reflexivity.
Qed.

(** X1. [GetHighestSupportedVersionForMajorVersion] and
    [GetSupportedMajorVersions] agree: a version is found exactly for the
    majors of the supported set, the version found has the major asked for,
    and it is one that parses back from its own text. *)
Theorem GetHighest_agrees_with_supported (m : Z) :
  (is_Some (GetHighestSupportedVersionForMajorVersion m)
   ↔ m ∈ GetSupportedMajorVersions)
  ∧ (∀ v, GetHighestSupportedVersionForMajorVersion m = Some v →
          Major v = m ∧ ParseVersion (ParsedVersion_String v) = Ok v).
Proof.
  split.
  - split.
    + intros [v Hv]. by apply GetHighest_found in Hv as [? _].
    + intros Hm. destruct (GetHighest_supported m Hm) as (v & -> & _). eauto.
  - intros v Hv. by apply GetHighest_found in Hv as (_ & ? & ?).
Qed.

(** The greatest element of a non-empty list, as the loop keeps it. *)
Lemma foldl_max_upper (m : Z) (ms : list Z) :
  ∀ x, x ∈ m :: ms → x ≤ foldl Z.max m ms.
Proof.
  revert m. induction ms as [|k ms IH]; intros m x Hx.
  - apply list_elem_of_singleton in Hx as ->. cbn. lia.
  - cbn [foldl]. apply elem_of_cons in Hx as [-> | Hx].
    + transitivity (Z.max m k); [lia|]. apply IH. left.
    + apply elem_of_cons in Hx as [-> | Hx].
      * transitivity (Z.max m k); [lia|]. apply IH. left.
      * apply IH. by right.
Qed.

Lemma foldl_max_elem (m : Z) (ms : list Z) : foldl Z.max m ms ∈ m :: ms.
Proof.
  revert m. induction ms as [|k ms IH]; intros m; [left|].
  cbn [foldl]. specialize (IH (Z.max m k)).
  apply elem_of_cons in IH as [Heq | Hin].
  - rewrite Heq. destruct (Z.max_spec m k) as [[_ ->]|[_ ->]];
      [right; left | left].
  - right. by right.
Qed.

(** X2. Whatever [SelectHighestSupportedVersion] selects is a version this
    implementation supports: the selected string parses, [IsVersionSupported]
    accepts it, its major is one of the counterparty's majors and no
    supported major of the counterparty is greater. *)
Theorem SelectHighestSupportedVersion_sound (l : list Z) (s : string) :
  SelectHighestSupportedVersion l = Some s →
  ∃ v, ParseVersion s = Ok v
       ∧ IsVersionSupported s = true
       ∧ Major v ∈ l
       ∧ ∀ m, m ∈ l → m ∈ GetSupportedMajorVersions → m ≤ Major v.
Proof.
  unfold SelectHighestSupportedVersion. rewrite select_loop.
  destruct (filter (λ m, m ∈ GetSupportedMajorVersions) l) as [|m ms] eqn:Hf;
    [done|].
  pose proof (foldl_max_elem m ms) as Hmax. rewrite <- Hf in Hmax.
  apply list_elem_of_filter in Hmax as [Hsup Hin].
  destruct (GetHighestSupportedVersionForMajorVersion (foldl Z.max m ms))
    as [v|] eqn:Hv; [|done].
  intros [= <-].
  destruct (GetHighest_found _ v Hv) as (_ & Hmajor & Hparse).
  exists v. split; [done|]. split.
  { unfold IsVersionSupported. rewrite Hparse, Hmajor. by apply bool_decide_eq_true. }
  rewrite Hmajor. split; [done|].
  intros k Hk Hksup. apply foldl_max_upper. rewrite <- Hf.
  by apply list_elem_of_filter.
Qed.

(** X2 at the list 0, 7, 1. *)
Lemma SelectHighestSupportedVersion_sound_witness :
  ∃ v, ParseVersion "1.0" = Ok v
       ∧ IsVersionSupported "1.0" = true
       ∧ Major v ∈ [0; 7; 1]
       ∧ ∀ m, m ∈ [0; 7; 1] → m ∈ GetSupportedMajorVersions → m ≤ Major v.
Proof.
  apply (SelectHighestSupportedVersion_sound [0; 7; 1] "1.0"). reflexivity.
Defined.

(** X1 at the major 0, kept for backwards compatibility. *)
Lemma GetHighest_agrees_with_supported_witness :
  is_Some (GetHighestSupportedVersionForMajorVersion 0)
  ∧ Major {| Major := 0; Minor := 3 |} = 0.
Proof.
  destruct (GetHighest_agrees_with_supported 0) as [Hiff Hfound]. split.
  - apply Hiff. apply GetSupportedMajorVersions_elem. by left.
  - apply (Hfound {| Major := 0; Minor := 3 |}). reflexivity.
Defined.

(** X3. The selection depends only on which supported majors the
    counterparty lists: two lists with the same supported majors select the
    same version, so the order of the list, repetitions and unsupported
    majors in it do not matter. *)
Theorem SelectHighestSupportedVersion_set (l l' : list Z) :
  (∀ m, m ∈ GetSupportedMajorVersions → m ∈ l ↔ m ∈ l') →
  SelectHighestSupportedVersion l = SelectHighestSupportedVersion l'.
Proof.
  intros Hsame. unfold SelectHighestSupportedVersion. rewrite !select_loop.
  assert (Hf : ∀ m, m ∈ filter (λ m, m ∈ GetSupportedMajorVersions) l
                    ↔ m ∈ filter (λ m, m ∈ GetSupportedMajorVersions) l').
  { intros m. rewrite !list_elem_of_filter. split; intros [Hm Hin];
      (split; [done|]); by apply (Hsame m Hm). }
  destruct (filter _ l) as [|m ms], (filter _ l') as [|m' ms'].
  - done.
  - exfalso. eapply not_elem_of_nil, (Hf m'). left.
  - exfalso. eapply not_elem_of_nil, (Hf m). left.
  - replace (foldl Z.max m' ms') with (foldl Z.max m ms); [done|].
    apply Z.le_antisymm.
    + apply foldl_max_upper, Hf, foldl_max_elem.
    + apply foldl_max_upper, Hf, foldl_max_elem.
Qed.

(** A list in another order, with a repetition and an unsupported major. *)
Lemma SelectHighestSupportedVersion_set_witness :
  SelectHighestSupportedVersion [0; 1] = SelectHighestSupportedVersion [1; 7; 0; 1].
Proof.
  apply SelectHighestSupportedVersion_set.
  intros m Hm. apply GetSupportedMajorVersions_elem in Hm.
  rewrite !list_elem_of_In. cbn. intuition lia.
Defined.

(** X4. [IsVersionSupported] looks at the major only: it accepts a string
    exactly when the string parses to a version whose major is 0 or 1, so the
    text of any version with such a major is accepted whatever its minor, and
    a string that does not parse is not supported. *)
Theorem IsVersionSupported_major_only :
  (∀ s : string,
      IsVersionSupported s = true
      ↔ ∃ v, ParseVersion s = Ok v ∧ (Major v = 0 ∨ Major v = 1))
  ∧ (∀ major minor : Z,
        int64_range major → int64_range minor →
        IsVersionSupported
          (ParsedVersion_String {| Major := major; Minor := minor |}) = true
        ↔ major = 0 ∨ major = 1).
Proof.
  assert (Hiff : ∀ s, IsVersionSupported s = true
                      ↔ ∃ v, ParseVersion s = Ok v ∧ (Major v = 0 ∨ Major v = 1)).
  { intros s. unfold IsVersionSupported.
    destruct (ParseVersion s) as [v| |].
    - rewrite bool_decide_eq_true, GetSupportedMajorVersions_elem.
      split; [eauto|]. by intros (? & [= <-] & ?).
    - split; [done|]. by intros (? & ? & _).
    - split; [done|]. by intros (? & ? & _). }
  split; [done|]. intros major minor Hmajor Hminor.
  rewrite Hiff, ParseVersion_String by done. split.
  - by intros (? & [= <-] & ?).
  - eauto.
Qed.

(** The version 1.999, and the string "2.0". *)
Lemma IsVersionSupported_major_only_witness :
  IsVersionSupported (ParsedVersion_String {| Major := 1; Minor := 999 |}) = true
  ∧ IsVersionSupported "2.0" ≠ true.
Proof.
  split.
  - apply (proj2 IsVersionSupported_major_only 1 999);
      unfold int64_range; lia.
  - intros Hs. apply (proj1 IsVersionSupported_major_only) in Hs
      as (v & Hp & Hv). vm_compute in Hp. injection Hp as <-.
    cbn in Hv. lia.
Defined.

(** X5. [SelectLowerVersion] returns one of its two arguments as it was
    given, so when both are supported versions the result is one too. *)
Theorem SelectLowerVersion_supported (a b r : string) :
  SelectLowerVersion a b = Ok r →
  (r = a ∨ r = b)
  ∧ (IsVersionSupported a = true → IsVersionSupported b = true →
     IsVersionSupported r = true).
Proof.
  unfold SelectLowerVersion.
  destruct (ParseVersion a) as [va| |]; cbn [outcome_bind]; [|done..].
  destruct (ParseVersion b) as [vb| |]; cbn [outcome_bind]; [|done..].
  destruct (_ || _); intros [= <-]; auto.
Qed.

(** X5 at the versions 1.0 and 0.3. *)
Lemma SelectLowerVersion_supported_witness :
  ("0.3" = "1.0" ∨ "0.3" = "0.3") ∧ IsVersionSupported "0.3" = true.
Proof.
  destruct (SelectLowerVersion_supported "1.0" "0.3" "0.3" eq_refl) as [Hr Hs].
  split; [exact Hr | apply Hs; reflexivity].
Defined.

(** ** version.go: the supported majors of an error response *)

Lemma format_digits_no_byte (c : ascii) (fuel : nat) (n : Z) (acc : string) :
  is_digit c = false →
  contains_byte c acc = false → contains_byte c (format_digits fuel n acc) = false.
Proof.
  intros Hc.
  assert (Hdigit : ∀ m, bool_decide (digit_char (m mod 10) = c) = false).
  { intros m. apply bool_decide_eq_false. intros <-.
    rewrite is_digit_digit_char in Hc; [done|]. apply Z.mod_pos_bound. lia. }
  revert n acc. induction fuel as [|fuel IH]; intros n acc Hacc; cbn [format_digits].
  - cbn [contains_byte]. by rewrite Hdigit, Hacc.
  - destruct (n <? 10).
    + cbn [contains_byte]. by rewrite Hdigit, Hacc.
    + apply IH. cbn [contains_byte]. by rewrite Hdigit, Hacc.
Qed.

Lemma FormatInt_no_comma (i : Z) : contains_byte "," (strconv_FormatInt i) = false.
Proof.
  unfold strconv_FormatInt, strconv_FormatUint.
  destruct (i <? 0); [cbn [contains_byte]|];
    by rewrite ?format_digits_no_byte.
Qed.

Lemma Atoi_FormatInt (i : Z) :
  int64_range i → strconv_Atoi (strconv_FormatInt i) = (i, None).
Proof. intros Hi. unfold strconv_Atoi. by rewrite ParseInt_FormatInt. Qed.

Lemma atoi_each_FormatInt (majors : list Z) :
  Forall int64_range majors →
  atoi_each (map strconv_FormatInt majors) = Ok majors.
Proof.
  induction 1 as [|i majors Hi _ IH]; [done|].
  cbn [map atoi_each]. by rewrite Atoi_FormatInt, IH.
Qed.

Lemma atoi_each_length (versions : list string) (ints : list Z) :
  atoi_each versions = Ok ints → length ints = length versions.
Proof.
  revert ints. induction versions as [|version rest IH]; intros ints; cbn [atoi_each].
  - by intros [= <-].
  - destruct (strconv_Atoi version) as [i [err|]]; [done|].
    destruct (atoi_each rest) as [ints'| |]; cbn [outcome_bind]; [|done..].
    intros [= <-]. cbn [length]. by rewrite (IH ints').
Qed.

Section ErrorResponse.
Context `{ExternVersion}.

(** X6. [GetSupportedMajorVersionsFromErrorResponseBody] reads back a
    comma-separated list of integers: for a body whose
    "supportedMajorVersions" entry is the decimal texts of a non-empty list
    of [int]s joined by [","], it returns that list. It never returns an
    empty list (a result has one more element than the entry has commas),
    and a body without the entry, or with an empty one, is an error of
    [Atoi] on the empty string; an error of the JSON decoder is returned as
    it is. *)
Theorem GetSupportedMajorVersions_roundtrip :
  (∀ (body : bytes) (responseJson : gmap string string) (majors : list Z),
      json_Unmarshal_responseJson body = inr responseJson →
      majors ≠ [] → Forall int64_range majors →
      responseJson !! "supportedMajorVersions"
      = Some (strings_Join (map strconv_FormatInt majors) ",") →
      GetSupportedMajorVersionsFromErrorResponseBody body = Ok majors)
  ∧ (∀ (body : bytes) (responseJson : gmap string string) (majors : list Z),
        json_Unmarshal_responseJson body = inr responseJson →
        GetSupportedMajorVersionsFromErrorResponseBody body = Ok majors →
        length majors
        = S (count_byte ","
               (default "" (responseJson !! "supportedMajorVersions"))))
  ∧ (∀ (body : bytes) (responseJson : gmap string string),
        json_Unmarshal_responseJson body = inr responseJson →
        default "" (responseJson !! "supportedMajorVersions") = "" →
        GetSupportedMajorVersionsFromErrorResponseBody body
        = Err (strconv_NumError "Atoi" "" ErrSyntax))
  ∧ (∀ (body : bytes) (err : error),
        json_Unmarshal_responseJson body = inl err →
        GetSupportedMajorVersionsFromErrorResponseBody body = Err err).
Proof.
  unfold GetSupportedMajorVersionsFromErrorResponseBody. repeat apply conj.
  - intros body responseJson majors -> Hne Hrange Hentry.
    cbn [of_result outcome_bind]. rewrite Hentry. cbn [from_option id].
    rewrite strings_Split_Join.
    + by apply atoi_each_FormatInt.
    + by destruct majors.
    + apply Forall_forall. intros w (i & -> & _)%list_elem_of_fmap.
      apply FormatInt_no_comma.
  - intros body responseJson majors -> Hok. cbn [of_result outcome_bind] in Hok.
    apply atoi_each_length in Hok. by rewrite Hok, strings_Split_length.
  - intros body responseJson -> Hempty. cbn [of_result outcome_bind].
    by rewrite Hempty.
  - by intros body err ->.
Qed.

End ErrorResponse.

(** X6 at the sample bodies: the list "1,0", and a body without the entry. *)
Lemma GetSupportedMajorVersions_roundtrip_witness :
  GetSupportedMajorVersionsFromErrorResponseBody (SampleVersion.body "1,0")
  = Ok [1; 0]
  ∧ GetSupportedMajorVersionsFromErrorResponseBody SampleVersion.empty_body
    = Err (strconv_NumError "Atoi" "" ErrSyntax).
Proof.
  destruct (GetSupportedMajorVersions_roundtrip (H := SampleVersion.extern))
    as (Hround & _ & Hmissing & _).
  split.
  - apply (Hround (SampleVersion.body "1,0")
             {[ "supportedMajorVersions" := "1,0" ]} [1; 0]).
    + reflexivity.
    + discriminate.
    + repeat constructor; unfold int64_range; lia.
    + reflexivity.
  - apply (Hmissing SampleVersion.empty_body ∅); reflexivity.
Defined.

(** ** protocol.go: canonical payloads *)

(** A text ends where its first separator stands, when the part before has
    none. *)
Lemma string_app_sep_inj (c : ascii) (a a' r r' : string) :
  contains_byte c a = false → contains_byte c a' = false →
  a +:+ String c r = a' +:+ String c r' → a = a' ∧ r = r'.
Proof.
  revert a'. induction a as [|d a IH]; intros [|d' a'] Ha Ha' Heq.
  - by injection Heq as ->.
  - rewrite string_app_cons in Heq. injection Heq as <- _.
    cbn [contains_byte] in Ha'. by rewrite bool_decide_eq_true_2 in Ha'.
  - rewrite string_app_cons in Heq. injection Heq as -> _.
    cbn [contains_byte] in Ha. by rewrite bool_decide_eq_true_2 in Ha.
  - rewrite !string_app_cons in Heq. injection Heq as -> Heq.
    cbn [contains_byte] in Ha, Ha'.
    apply orb_false_elim in Ha as [_ Ha]. apply orb_false_elim in Ha' as [_ Ha'].
    destruct (IH a' Ha Ha' Heq) as [-> ->]. done.
Qed.

Lemma FormatInt_inj (i j : Z) :
  int64_range i → int64_range j →
  strconv_FormatInt i = strconv_FormatInt j → i = j.
Proof.
  intros Hi Hj Heq. pose proof (ParseInt_FormatInt i Hi) as Hpi.
  rewrite Heq, ParseInt_FormatInt in Hpi by done. congruence.
Qed.

(** X13. The canonical payload of a capability request determines the
    signed fields, as long as the receiver address and the nonce contain no
    ['|']: two requests with the same payload have the same receiver
    address, nonce and Unix time. *)
Theorem LnurlpRequest_signablePayload_inj (q q' : LnurlpRequest)
    (payload : bytes) (nonce nonce' : string) (timestamp timestamp' : time_Time) :
  LnurlpRequest_Nonce q = Some nonce →
  LnurlpRequest_Nonce q' = Some nonce' →
  LnurlpRequest_Timestamp q = Some timestamp →
  LnurlpRequest_Timestamp q' = Some timestamp' →
  contains_byte "|" (LnurlpRequest_ReceiverAddress q) = false →
  contains_byte "|" (LnurlpRequest_ReceiverAddress q') = false →
  contains_byte "|" nonce = false →
  contains_byte "|" nonce' = false →
  int64_range (time_Unix timestamp) → int64_range (time_Unix timestamp') →
  LnurlpRequest_signablePayload q = Ok payload →
  LnurlpRequest_signablePayload q' = Ok payload →
  LnurlpRequest_ReceiverAddress q = LnurlpRequest_ReceiverAddress q'
  ∧ nonce = nonce'
  ∧ time_Unix timestamp = time_Unix timestamp'.
Proof.
  intros Hn Hn' Ht Ht' Ha Ha' Hp Hp' Hr Hr'.
  rewrite (LnurlpRequest_signablePayload_Ok q nonce timestamp) by done.
  rewrite (LnurlpRequest_signablePayload_Ok q' nonce' timestamp') by done.
  intros [= <-] [= Heq].
  assert (Hstr : LnurlpRequest_ReceiverAddress q
                 +:+ String "|" (nonce +:+ String "|"
                                   (strconv_FormatInt (time_Unix timestamp)))
               = LnurlpRequest_ReceiverAddress q'
                 +:+ String "|" (nonce' +:+ String "|"
                                   (strconv_FormatInt (time_Unix timestamp')))).
  { rewrite <- (string_of_list_byte_of_string (_ +:+ String "|" (nonce +:+ _))),
      <- (string_of_list_byte_of_string (_ +:+ String "|" (nonce' +:+ _))).
    f_equal. symmetry. exact Heq. }
  apply string_app_sep_inj in Hstr as [Haddr Hrest]; [|done..].
  apply string_app_sep_inj in Hrest as [Hnonce Hts]; [|done..].
  repeat split; [done..|]. by apply FormatInt_inj.
Qed.

Lemma LnurlpRequest_signablePayload_inj_witness :
  LnurlpRequest_ReceiverAddress Sample.capability_request
  = LnurlpRequest_ReceiverAddress Sample.capability_request_no_flag
  ∧ "abc" = "abc"
  ∧ 1700000000 = 1700000000.
Proof.
  apply (LnurlpRequest_signablePayload_inj Sample.capability_request
           Sample.capability_request_no_flag
           (list_byte_of_string "alice@vasp.com|abc|1700000000")
           "abc" "abc"
           {| time_sec := 1700000000; time_nsec := 0 |}
           {| time_sec := 1700000000; time_nsec := 0 |});
    try reflexivity; unfold int64_range; cbn; lia.
Defined.

(** X12. Upgrading and canonicalizing compose: for a request that
    [AsUmaRequest] upgrades, [signablePayload] succeeds, and the payload is
    made of the fields of the strict request. *)
Theorem LnurlpRequest_upgrade_signable (q : LnurlpRequest) (u : UmaLnurlpRequest) :
  LnurlpRequest_AsUmaRequest q = Ok (Some u) →
  LnurlpRequest_signablePayload q
  = Ok (list_byte_of_string
          (UmaLnurlpRequest_ReceiverAddress u +:+ "|"
             +:+ UmaLnurlpRequest_Nonce u +:+ "|"
             +:+ strconv_FormatInt (time_Unix (UmaLnurlpRequest_Timestamp u)))).
Proof.
  unfold LnurlpRequest_AsUmaRequest.
  destruct (LnurlpRequest_IsUmaRequest q) eqn:Huma; cbn [negb]; [|done].
  apply LnurlpRequest_IsUmaRequest_iff in Huma
    as ([nonce Hn] & [sig Hs] & [dom Hd] & [ts Ht] & [ver Hv]).
  rewrite Hn, Hs, Hd, Ht, Hv. cbn. intros [= <-]. cbn.
  by apply LnurlpRequest_signablePayload_Ok.
Qed.

Lemma LnurlpRequest_upgrade_signable_witness :
  LnurlpRequest_signablePayload Sample.capability_request_no_flag
  = Ok (list_byte_of_string "alice@vasp.com|abc|1700000000").
Proof.
  apply (LnurlpRequest_upgrade_signable Sample.capability_request_no_flag
           {| UmaLnurlpRequest_LnurlpRequest := Sample.capability_request_no_flag;
              UmaLnurlpRequest_ReceiverAddress := "alice@vasp.com";
              UmaLnurlpRequest_Nonce := "abc";
              UmaLnurlpRequest_Signature := "c2ln";
              UmaLnurlpRequest_IsSubjectToTravelRule := false;
              UmaLnurlpRequest_VaspDomain := "vasp1.com";
              UmaLnurlpRequest_Timestamp :=
                {| time_sec := 1700000000; time_nsec := 0 |};
              UmaLnurlpRequest_UmaVersion := "1.0" |}).
  reflexivity.
Defined.

Section MorePayloads.
Context `{Extern}.

(** X14. The canonical payload of payee compliance data does not mark
    where one identifier ends: a ['|'] inside an identifier reads as a
    separator, so moving the text after it from the payer identifier to the
    payee identifier leaves the payload as it is. *)
Theorem CompliancePayeeData_signablePayload_ambiguous
    (c : option CompliancePayeeData) (payer middle payee : string) :
  CompliancePayeeData_signablePayload c (payer +:+ "|" +:+ middle) payee
  = CompliancePayeeData_signablePayload c payer (middle +:+ "|" +:+ payee).
Proof.
  destruct c as [c|]; [|done]. unfold CompliancePayeeData_signablePayload.
  do 2 f_equal. cbn [strings_Join]. by rewrite !string_app_assoc.
Qed.

(** X8. An invoice request can be canonicalized exactly when it is an UMA
    request whose payer identifier is not the empty string. *)
Theorem PayRequest_signable_iff_uma (p : PayRequest) :
  is_Ok (PayRequest_signablePayload p) = true
  ↔ PayRequest_IsUmaRequest p = true
    ∧ ∀ payerData, PayRequest_PayerData p = Some payerData →
                   PayerData_Identifier payerData ≠ Some "".
Proof.
  unfold PayRequest_signablePayload, PayRequest_IsUmaRequest.
  destruct (PayRequest_PayerData p) as [payerData|]; [|by split; [|intros []]].
  destruct (PayerData_Identifier payerData) as [identifier|] eqn:Hid.
  - destruct (decide (identifier = "")) as [->|Hne].
    + split; [done|]. intros [_ Hnot]. by destruct (Hnot payerData).
    + destruct (PayerData_Compliance payerData) as [err|[compliance|]];
        cbn; (split; [|by intros []]); try done.
      intros _. split; [done|]. intros ? [= <-]. rewrite Hid. congruence.
  - destruct (PayerData_Compliance payerData) as [err|[compliance|]];
      cbn; by split; [|intros []].
Qed.

(** X7. The loose-to-strict upgrade of the capability response: it is an UMA
    response exactly when the compliance block, the version, the currencies
    and the required payer data are all present; then [AsUmaResponse]
    returns a strict response that embeds the loose one and carries its
    fields, the optional ones as they are; otherwise it returns nil. It
    never panics. *)
Theorem LnurlpResponse_upgrade (r : LnurlpResponse) :
  (LnurlpResponse_IsUmaResponse r = true
   ↔ is_Some (LnurlpResponse_Compliance r)
     ∧ is_Some (LnurlpResponse_UmaVersion r)
     ∧ is_Some (LnurlpResponse_Currencies r)
     ∧ is_Some (LnurlpResponse_RequiredPayerData r))
  ∧ (LnurlpResponse_IsUmaResponse r = true →
     ∃ u, LnurlpResponse_AsUmaResponse r = Ok (Some u)
          ∧ UmaLnurlpResponse_LnurlpResponse u = r
          ∧ Some (UmaLnurlpResponse_Currencies u) = LnurlpResponse_Currencies r
          ∧ Some (UmaLnurlpResponse_RequiredPayerData u)
            = LnurlpResponse_RequiredPayerData r
          ∧ Some (UmaLnurlpResponse_Compliance u) = LnurlpResponse_Compliance r
          ∧ Some (UmaLnurlpResponse_UmaVersion u) = LnurlpResponse_UmaVersion r
          ∧ UmaLnurlpResponse_CommentCharsAllowed u
            = LnurlpResponse_CommentCharsAllowed r
          ∧ UmaLnurlpResponse_NostrPubkey u = LnurlpResponse_NostrPubkey r
          ∧ UmaLnurlpResponse_AllowsNostr u = LnurlpResponse_AllowsNostr r)
  ∧ (LnurlpResponse_IsUmaResponse r = false →
     LnurlpResponse_AsUmaResponse r = Ok None).
Proof.
  unfold LnurlpResponse_AsUmaResponse, LnurlpResponse_IsUmaResponse.
  destruct r as [tag callback minS maxS meta currencies payerData compliance
                 version comment nostr allows].
  cbn. destruct compliance, version, currencies, payerData; cbn.
  all: split;
    [split; [intros Hx; first [discriminate | eauto 10]
            |intros ([? ?] & [? ?] & [? ?] & [? ?]);
             first [reflexivity | discriminate]]|].
  all: split;
    [intros Hx;
     first [discriminate | eexists; split; [reflexivity|]; cbn; done]
    |intros Hx; first [discriminate | reflexivity]].
Qed.

End MorePayloads.

(** ** net/url: the encoded query *)

(** One step of the buffer of [Values.Encode]: a ['&'] unless the buffer is
    empty, then the pair. *)
Lemma Encode_pairs_Join (pieces : list string) :
  Forall (λ piece, piece ≠ "") pieces →
  foldl (λ buf piece,
           (if decide (buf = EmptyString) then buf else buf +:+ "&") +:+ piece)
        "" pieces
  = strings_Join pieces "&".
Proof.
  assert (Hfrom : ∀ pieces buf, buf ≠ "" →
    Forall (λ piece, piece ≠ "") pieces →
    foldl (λ buf piece,
             (if decide (buf = EmptyString) then buf else buf +:+ "&") +:+ piece)
          buf pieces
    = strings_Join (buf :: pieces) "&").
  { clear pieces. induction pieces as [|piece pieces IH]; intros buf Hbuf Hall;
      [done|].
    inversion Hall as [|? ? Hpiece Hrest]; subst. cbn [foldl].
    rewrite decide_False by done. rewrite IH; [| |done].
    - destruct pieces as [|piece' pieces]; rewrite ?strings_Join_cons;
        cbn [strings_Join]; by rewrite !string_app_assoc.
    - destruct buf; [done|]. by rewrite !string_app_cons. }
  destruct pieces as [|piece pieces]; [done|]. intros Hall.
  inversion Hall as [|? ? Hpiece Hrest]; subst. cbn [foldl].
  rewrite decide_True by done. by apply Hfrom.
Qed.

Lemma Values_Encode_Join (v : url_Values) :
  Values_Encode v
  = strings_Join
      (flat_map (λ k, map (λ value, url_QueryEscape k +:+ "=" +:+ url_QueryEscape value)
                          (default [] (v !! k)))
                (merge_sort String.le (map fst (map_to_list v))))
      "&".
Proof.
  unfold Values_Encode. generalize (merge_sort String.le (map fst (map_to_list v))).
  intros keys. etransitivity; [|apply Encode_pairs_Join].
  - assert (Hflat : ∀ buf : string,
      foldl (λ buf k,
               let keyEscaped := url_QueryEscape k in
               foldl (λ buf value,
                        (if decide (buf = EmptyString) then buf else buf +:+ "&")
                        +:+ keyEscaped +:+ "=" +:+ url_QueryEscape value)
                     buf (default [] (v !! k)))
            buf keys
      = foldl (λ buf piece,
                 (if decide (buf = EmptyString) then buf else buf +:+ "&") +:+ piece)
              buf
              (flat_map (λ k, map (λ value, url_QueryEscape k +:+ "="
                                             +:+ url_QueryEscape value)
                                  (default [] (v !! k))) keys)).
    { induction keys as [|k keys IH]; intros buf; [done|].
      cbn [foldl flat_map]. rewrite foldl_app, <- IH. f_equal.
      generalize (default [] (v !! k)). intros values. revert buf.
      induction values as [|value values IHv]; intros buf; [done|].
      cbn [foldl map]. by rewrite IHv. }
    apply Hflat.
  - apply Forall_forall. intros piece Hin. apply list_elem_of_In in Hin.
    apply in_flat_map in Hin as (k & _ & Hin). apply in_map_iff in Hin as (value & <- & _).
    intros Heq. destruct (url_QueryEscape k);
      [change (String "=" (url_QueryEscape value) = "") in Heq
      |rewrite string_app_cons in Heq]; discriminate Heq.
Qed.

(** What [QueryEscape] writes has no ['&'] and no ['=']. *)
Lemma QueryEscape_no_separator (s : string) :
  contains_byte "&" (url_QueryEscape s) = false
  ∧ contains_byte "=" (url_QueryEscape s) = false.
Proof.
  assert (Hne : ∀ c d : ascii, byte_code c ≠ byte_code d → bool_decide (c = d) = false).
  { intros c d Hcd. apply bool_decide_eq_false. by intros ->. }
  assert (Hhex : ∀ n, 0 ≤ n < 16 →
    bool_decide (upperhex n = "&"%char) = false
    ∧ bool_decide (upperhex n = "="%char) = false).
  { intros n Hn. unfold upperhex.
    destruct (n <? 10) eqn:Hlt; [apply Z.ltb_lt in Hlt | apply Z.ltb_ge in Hlt];
      split; apply Hne; rewrite byte_code_chr by lia;
      [change (byte_code "&") with 38 | change (byte_code "=") with 61
      |change (byte_code "&") with 38 | change (byte_code "=") with 61]; lia. }
  induction s as [|c s [IH1 IH2]]; [done|]. cbn [url_QueryEscape].
  pose proof (byte_code_chr (byte_code c)) as _.
  assert (Hrange : 0 ≤ byte_code c < 256).
  { unfold byte_code. pose proof (N_ascii_bounded c). lia. }
  destruct (Z.eqb_spec (byte_code c) 32) as [Hsp|Hsp].
  { cbn [contains_byte]. by rewrite IH1, IH2. }
  destruct (shouldEscape c) eqn:Hesc.
  - destruct (Hhex (byte_code c / 16)) as [H1 H2].
    { split; [apply Z.div_pos; lia | apply Z.div_lt_upper_bound; lia]. }
    destruct (Hhex (byte_code c mod 16)) as [H3 H4].
    { apply Z.mod_pos_bound. lia. }
    cbn [contains_byte]. by rewrite H1, H2, H3, H4, IH1, IH2.
  - cbn [contains_byte]. rewrite IH1, IH2.
    unfold shouldEscape in Hesc. apply negb_false_iff in Hesc.
    split; rewrite Hne; try done;
      [change (byte_code "&") with 38 | change (byte_code "=") with 61];
      intros Heq; rewrite Heq in Hesc; by vm_compute in Hesc.
Qed.

Lemma QueryEscape_FormatBool (b : bool) :
  url_QueryEscape (strconv_FormatBool b) = strconv_FormatBool b.
Proof. by destruct b. Qed.

Section MoreUrl.
Context `{Extern}.

(** X9. The URL of a capability request carries the receiver address:
    [EncodeToUrl] fails, with an error, exactly when the address does not
    contain exactly one ['@']; and when it returns a URL, the address is the
    local part that ends the path, ['@'], and the host, neither of which
    contains ['@'], and the scheme is http for a local host and https
    otherwise. *)
Theorem LnurlpRequest_EncodeToUrl_address :
  (∀ q : LnurlpRequest,
      is_Err (LnurlpRequest_EncodeToUrl q) = true
      ↔ count_byte "@" (LnurlpRequest_ReceiverAddress q) ≠ 1%nat)
  ∧ (∀ (q : LnurlpRequest) (u : url_URL),
        LnurlpRequest_EncodeToUrl q = Ok u →
        ∃ localpart,
          URL_Path u = "/.well-known/lnurlp/" +:+ localpart
          ∧ LnurlpRequest_ReceiverAddress q = localpart +:+ "@" +:+ URL_Host u
          ∧ contains_byte "@" localpart = false
          ∧ contains_byte "@" (URL_Host u) = false
          ∧ URL_Scheme u = if IsDomainLocalhost (URL_Host u) then "http" else "https").
Proof.
  assert (Hshape : ∀ q : LnurlpRequest,
    count_byte "@" (LnurlpRequest_ReceiverAddress q) = 1%nat →
    ∃ localpart host,
      strings_Split (LnurlpRequest_ReceiverAddress q) "@" = [localpart; host]
      ∧ LnurlpRequest_ReceiverAddress q = localpart +:+ "@" +:+ host
      ∧ contains_byte "@" localpart = false ∧ contains_byte "@" host = false).
  { intros q Hcount.
    pose proof (strings_Split_length (LnurlpRequest_ReceiverAddress q) "@") as Hlen.
    pose proof (strings_Split_pieces (LnurlpRequest_ReceiverAddress q) "@") as Hall.
    pose proof (strings_Join_Split (LnurlpRequest_ReceiverAddress q) "@") as Hjoin.
    rewrite Hcount in Hlen.
    destruct (strings_Split _ "@") as [|localpart [|host [|? ?]]]; try done.
    inversion Hall as [|? ? Hl Hrest]; subst.
    inversion Hrest as [|? ? Hh _]; subst.
    exists localpart, host. by rewrite <- Hjoin. }
  split.
  - intros q. destruct (decide (count_byte "@" (LnurlpRequest_ReceiverAddress q) = 1%nat))
      as [Hcount|Hcount].
    + split; [|done]. destruct (Hshape q Hcount) as (l & h & Hsplit & _).
      unfold LnurlpRequest_EncodeToUrl. rewrite Hsplit. cbn.
      destruct (LnurlpRequest_IsUmaRequest q); [|done].
      destruct (LnurlpRequest_Signature q), (LnurlpRequest_VaspDomain q),
        (LnurlpRequest_Nonce q), (LnurlpRequest_IsSubjectToTravelRule q),
        (LnurlpRequest_Timestamp q), (LnurlpRequest_UmaVersion q); done.
    + split; [done|]. intros _.
      rewrite LnurlpRequest_EncodeToUrl_invalid; [done|].
      rewrite strings_Split_length. lia.
  - intros q u Hu.
    destruct (decide (count_byte "@" (LnurlpRequest_ReceiverAddress q) = 1%nat))
      as [Hcount|Hcount].
    + destruct (Hshape q Hcount) as (l & h & Hsplit & Haddr & Hl & Hh).
      unfold LnurlpRequest_EncodeToUrl in Hu. rewrite Hsplit in Hu. cbn in Hu.
      exists l.
      destruct (LnurlpRequest_IsUmaRequest q);
        [destruct (LnurlpRequest_Signature q), (LnurlpRequest_VaspDomain q),
           (LnurlpRequest_Nonce q), (LnurlpRequest_IsSubjectToTravelRule q),
           (LnurlpRequest_Timestamp q), (LnurlpRequest_UmaVersion q);
         try done|];
        injection Hu as <-; cbn; by destruct (IsDomainLocalhost h).
    + rewrite LnurlpRequest_EncodeToUrl_invalid in Hu; [done|].
      rewrite strings_Split_length. lia.
Qed.

(** X10. [EncodeToUrl] panics only on an UMA request without the
    travel-rule flag; a request that is not an UMA request and whose address
    has one ['@'] is always encoded, with an empty query. *)
Theorem LnurlpRequest_EncodeToUrl_plain_total :
  (∀ (q : LnurlpRequest) (msg : string),
      LnurlpRequest_EncodeToUrl q = Panic msg →
      LnurlpRequest_IsUmaRequest q = true
      ∧ LnurlpRequest_IsSubjectToTravelRule q = None)
  ∧ (∀ q : LnurlpRequest,
        LnurlpRequest_IsUmaRequest q = false →
        count_byte "@" (LnurlpRequest_ReceiverAddress q) = 1%nat →
        ∃ u, LnurlpRequest_EncodeToUrl q = Ok u ∧ URL_RawQuery u = "").
Proof.
  split.
  - intros q msg. unfold LnurlpRequest_EncodeToUrl.
    destruct (strings_Split _ "@") as [|l [|h [|? ?]]]; cbn; try done.
    destruct (LnurlpRequest_IsUmaRequest q) eqn:Huma; [|done].
    destruct (proj1 (LnurlpRequest_IsUmaRequest_iff q) Huma)
      as ([nonce Hn] & [sig Hs] & [dom Hd] & [ts Ht] & [ver Hv]).
    rewrite Hn, Hs, Hd, Ht, Hv.
    by destruct (LnurlpRequest_IsSubjectToTravelRule q).
  - intros q Huma Hcount.
    pose proof (strings_Split_length (LnurlpRequest_ReceiverAddress q) "@") as Hlen.
    rewrite Hcount in Hlen.
    destruct (strings_Split _ "@") as [|l [|h [|? ?]]] eqn:Hsplit; try done.
    rewrite (LnurlpRequest_EncodeToUrl_plain q l h) by done. eauto.
Qed.

(** X11. The query of an UMA request with the travel-rule flag: the six
    parameters in the order of their keys, each value escaped, joined by
    ['&']; the values written contain neither ['&'] nor ['='], whatever the
    fields of the request contain. *)
Theorem LnurlpRequest_EncodeToUrl_query (q : LnurlpRequest) (u : url_URL)
    (signature vaspDomain nonce umaVersion : string) (flag : bool)
    (timestamp : time_Time) :
  LnurlpRequest_Signature q = Some signature →
  LnurlpRequest_VaspDomain q = Some vaspDomain →
  LnurlpRequest_Nonce q = Some nonce →
  LnurlpRequest_Timestamp q = Some timestamp →
  LnurlpRequest_UmaVersion q = Some umaVersion →
  LnurlpRequest_IsSubjectToTravelRule q = Some flag →
  LnurlpRequest_EncodeToUrl q = Ok u →
  URL_RawQuery u
  = "isSubjectToTravelRule=" +:+ strconv_FormatBool flag
    +:+ "&nonce=" +:+ url_QueryEscape nonce
    +:+ "&signature=" +:+ url_QueryEscape signature
    +:+ "&timestamp=" +:+ url_QueryEscape (strconv_FormatInt (time_Unix timestamp))
    +:+ "&umaVersion=" +:+ url_QueryEscape umaVersion
    +:+ "&vaspDomain=" +:+ url_QueryEscape vaspDomain
  ∧ Forall (λ value, contains_byte "&" value = false
                     ∧ contains_byte "=" value = false)
      [strconv_FormatBool flag; url_QueryEscape nonce; url_QueryEscape signature;
       url_QueryEscape (strconv_FormatInt (time_Unix timestamp));
       url_QueryEscape umaVersion; url_QueryEscape vaspDomain].
Proof.
  intros Hsig Hdom Hnonce Hts Hver Hflag Hu. split.
  - unfold LnurlpRequest_EncodeToUrl in Hu.
    destruct (strings_Split _ "@") as [|l [|h [|? ?]]]; cbn in Hu; try done.
    unfold LnurlpRequest_IsUmaRequest in Hu.
    rewrite Hsig, Hdom, Hnonce, Hts, Hver, Hflag in Hu. cbn in Hu.
    injection Hu as <-. cbn [URL_RawQuery].
    change (Values_Add "umaVersion" umaVersion _)
      with (uma_queryParams signature vaspDomain nonce flag timestamp umaVersion).
    rewrite Values_Encode_Join. unfold uma_queryParams.
    generalize (strconv_FormatInt (time_Unix timestamp)). intros ts.
    rewrite <- (QueryEscape_FormatBool flag) at 2.
    generalize (strconv_FormatBool flag). intros fl.
    replace (merge_sort String.le (map fst (map_to_list _)))
      with ["isSubjectToTravelRule"; "nonce"; "signature"; "timestamp";
            "umaVersion"; "vaspDomain"]
      by (vm_compute; reflexivity).
    reflexivity.
  - rewrite <- (QueryEscape_FormatBool flag).
    repeat constructor; apply QueryEscape_no_separator.
Qed.

End MoreUrl.

Lemma LnurlpRequest_EncodeToUrl_query_witness :
  ∃ u, LnurlpRequest_EncodeToUrl Sample.capability_request = Ok u
       ∧ URL_RawQuery u
         = "isSubjectToTravelRule=true&nonce=abc&signature=c2ln"
           +:+ "&timestamp=1700000000&umaVersion=1.0&vaspDomain=vasp1.com".
Proof.
  eexists. split; [reflexivity|].
  apply (LnurlpRequest_EncodeToUrl_query (H := Sample.extern)
           Sample.capability_request _ "c2ln" "vasp1.com" "abc" "1.0" true
           {| time_sec := 1700000000; time_nsec := 0 |});
    reflexivity.
Defined.

Lemma LnurlpRequest_EncodeToUrl_plain_total_witness :
  ∃ u, LnurlpRequest_EncodeToUrl
         {| LnurlpRequest_ReceiverAddress := "bob@localhost";
            LnurlpRequest_Nonce := None;
            LnurlpRequest_Signature := None;
            LnurlpRequest_IsSubjectToTravelRule := None;
            LnurlpRequest_VaspDomain := None;
            LnurlpRequest_Timestamp := None;
            LnurlpRequest_UmaVersion := None |} = Ok u
       ∧ URL_RawQuery u = "".
Proof.
  apply (proj2 (LnurlpRequest_EncodeToUrl_plain_total (H := Sample.extern)));
    reflexivity.
Defined.

Lemma LnurlpRequest_EncodeToUrl_address_witness :
  ∃ localpart,
    "/.well-known/lnurlp/alice" = "/.well-known/lnurlp/" +:+ localpart
    ∧ "alice@vasp.com" = localpart +:+ "@" +:+ "vasp.com".
Proof.
  destruct (proj2 (LnurlpRequest_EncodeToUrl_address (H := Sample.extern))
              Sample.capability_request _ LnurlpRequest_EncodeToUrl_sample)
    as (localpart & Hpath & Haddr & _).
  exists localpart. split; [exact Hpath | exact Haddr].
Defined.

(** ** protocol.go: the public keys *)

Lemma hex_digits_of_byte (v : Byte.byte) :
  let n := byte_code (ascii_of_byte v) in
  reverseHexTable (hextable (Z.shiftr n 4)) = Z.shiftr n 4
  ∧ reverseHexTable (hextable (Z.land n 15)) = Z.land n 15
  ∧ (15 <? Z.shiftr n 4) = false
  ∧ (15 <? Z.land n 15) = false
  ∧ byte_of_ascii (byte_chr (Z.lor (Z.shiftl (Z.shiftr n 4) 4) (Z.land n 15))) = v.
Proof. destruct v; vm_compute; done. Qed.

Lemma hex_Decode_Encode (key : bytes) :
  hex_Decode (hex_EncodeToString key) = (key, None).
Proof.
  induction key as [|v key IH]; [done|].
  destruct (hex_digits_of_byte v) as (Ha & Hb & Hla & Hlb & Hv).
  cbn [hex_EncodeToString hex_Decode]. cbv zeta in *.
  rewrite Ha, Hb, Hla, Hlb, IH, Hv. done.
Qed.

Lemma reverseHexTable_digit (c : ascii) :
  (15 <? reverseHexTable c) = negb (is_hex_digit c).
Proof.
  unfold reverseHexTable, is_hex_digit. cbv zeta.
  destruct (48 <=? byte_code c) eqn:H1, (byte_code c <=? 57) eqn:H2,
    (97 <=? byte_code c) eqn:H3, (byte_code c <=? 102) eqn:H4,
    (65 <=? byte_code c) eqn:H5, (byte_code c <=? 70) eqn:H6; cbn; lia.
Qed.

(** What [hex.Decode] returns for a text and for the text after one more
    byte, which is how the loop pairs the bytes. *)
Lemma hex_Decode_spec (s : string) :
  let P (s : string) :=
    ((hex_Decode s).2 = None ↔ is_hex_text s = true)
    ∧ ((hex_Decode s).2 = None →
       String.length s = (2 * length (hex_Decode s).1)%nat)
    ∧ (2 * length (hex_Decode s).1 ≤ String.length s)%nat in
  P s ∧ ∀ c, P (String c s).
Proof.
  cbv zeta. induction s as [|d s [IHs IHc]].
  - split; [done|]. intros c. cbn [hex_Decode]. rewrite reverseHexTable_digit.
    unfold is_hex_text. destruct (is_hex_digit c); cbn; repeat split; done || lia.
  - split; [apply IHc|]. intros c. cbn [hex_Decode]. cbv zeta.
    rewrite !reverseHexTable_digit. unfold is_hex_text in *.
    cbn [String.length Nat.even list_ascii_of_string forallb].
    destruct (is_hex_digit c); cbn [negb andb];
      [|cbn; repeat split; done || lia].
    destruct (is_hex_digit d); cbn [negb andb];
      [|cbn; rewrite ?andb_false_r; repeat split; done || lia].
    destruct IHs as (Hiff & Hlen & Hle).
    destruct (hex_Decode s) as [dst err]. cbn [fst snd length] in *.
    repeat split; try tauto; try lia.
    intros Herr. specialize (Hlen Herr). lia.
Qed.

Lemma hex_Decode_app (key : bytes) (rest : string) :
  hex_Decode (hex_EncodeToString key +:+ rest)
  = (key ++ (hex_Decode rest).1, (hex_Decode rest).2).
Proof.
  induction key as [|v key IH].
  { change (hex_EncodeToString [] +:+ rest) with rest.
    by destruct (hex_Decode rest). }
  destruct (hex_digits_of_byte v) as (Ha & Hb & Hla & Hlb & Hv).
  cbn [hex_EncodeToString]. rewrite !string_app_cons.
  cbn [hex_Decode]. cbv zeta in *.
  rewrite Ha, Hb, Hla, Hlb, IH, Hv. done.
Qed.

Lemma hex_Decode_invalid (c : ascii) (rest : string) :
  is_hex_digit c = false →
  hex_Decode (String c rest) = ([], Some (hex_InvalidByteError c)).
Proof.
  intros Hc. destruct rest; cbn [hex_Decode]; cbv zeta;
    by rewrite reverseHexTable_digit, Hc.
Qed.

(** X18. The two key methods of [PubKeyResponse] read back what
    [hex.EncodeToString] writes: for a response whose field is the
    hexadecimal text of a key, the method returns that key and no error. *)
Theorem PubKeyResponse_keys_roundtrip (r : PubKeyResponse) (key : bytes) :
  (PubKeyResponse_SigningPubKeyHex r = hex_EncodeToString key →
   PubKeyResponse_SigningPubKey r = (key, None))
  ∧ (PubKeyResponse_EncryptionPubKeyHex r = hex_EncodeToString key →
     PubKeyResponse_EncryptionPubKey r = (key, None)).
Proof.
  unfold PubKeyResponse_SigningPubKey, PubKeyResponse_EncryptionPubKey,
    hex_DecodeString.
  split; intros ->; apply hex_Decode_Encode.
Qed.

(** X19. [SigningPubKey] and [EncryptionPubKey] succeed exactly on a text
    of hexadecimal digits (of either case), an even number of them, and the
    key then has half as many bytes as the text; in every case, an error
    included, the bytes returned are at most half as many. With an error the
    methods return the bytes decoded before it, not nil: for the text of a
    key followed by a byte that is no digit, the key comes back with
    [InvalidByteError] of that byte. *)
Theorem PubKeyResponse_keys_shape (r : PubKeyResponse) :
  ((PubKeyResponse_SigningPubKey r).2 = None
   ↔ is_hex_text (PubKeyResponse_SigningPubKeyHex r) = true)
  ∧ ((PubKeyResponse_EncryptionPubKey r).2 = None
     ↔ is_hex_text (PubKeyResponse_EncryptionPubKeyHex r) = true)
  ∧ ((PubKeyResponse_SigningPubKey r).2 = None →
     String.length (PubKeyResponse_SigningPubKeyHex r)
     = (2 * length (PubKeyResponse_SigningPubKey r).1)%nat)
  ∧ ((PubKeyResponse_EncryptionPubKey r).2 = None →
     String.length (PubKeyResponse_EncryptionPubKeyHex r)
     = (2 * length (PubKeyResponse_EncryptionPubKey r).1)%nat)
  ∧ (2 * length (PubKeyResponse_SigningPubKey r).1
     ≤ String.length (PubKeyResponse_SigningPubKeyHex r))%nat
  ∧ (2 * length (PubKeyResponse_EncryptionPubKey r).1
     ≤ String.length (PubKeyResponse_EncryptionPubKeyHex r))%nat
  ∧ (∀ (key : bytes) (c : ascii) (rest : string),
        is_hex_digit c = false →
        (PubKeyResponse_SigningPubKeyHex r
         = hex_EncodeToString key +:+ String c rest →
         PubKeyResponse_SigningPubKey r = (key, Some (hex_InvalidByteError c)))
        ∧ (PubKeyResponse_EncryptionPubKeyHex r
           = hex_EncodeToString key +:+ String c rest →
           PubKeyResponse_EncryptionPubKey r
           = (key, Some (hex_InvalidByteError c)))).
Proof.
  unfold PubKeyResponse_SigningPubKey, PubKeyResponse_EncryptionPubKey,
    hex_DecodeString.
  destruct (hex_Decode_spec (PubKeyResponse_SigningPubKeyHex r))
    as [(Hs1 & Hs2 & Hs3) _].
  destruct (hex_Decode_spec (PubKeyResponse_EncryptionPubKeyHex r))
    as [(He1 & He2 & He3) _].
  repeat apply conj; try tauto; try lia.
  intros key c rest Hc.
  split; intros ->; rewrite hex_Decode_app, hex_Decode_invalid by done;
    cbn [fst snd]; by rewrite app_nil_r.
Qed.

(** X18 at the key 0x02 0xab 0xff. *)
Lemma PubKeyResponse_keys_roundtrip_witness :
  PubKeyResponse_SigningPubKey
    {| PubKeyResponse_SigningPubKeyHex := "02abff";
       PubKeyResponse_EncryptionPubKeyHex := "";
       PubKeyResponse_ExpirationTimestamp := None |}
  = ([Byte.x02; Byte.xab; Byte.xff], None).
Proof.
  apply (proj1 (PubKeyResponse_keys_roundtrip _ [Byte.x02; Byte.xab; Byte.xff])).
  reflexivity.
Defined.

(** X19 at a text of three digits: an error, and the first byte with it. *)
Lemma PubKeyResponse_keys_shape_witness :
  String.length "02AB" = (2 * 2)%nat
  ∧ PubKeyResponse_SigningPubKey
      {| PubKeyResponse_SigningPubKeyHex := "02a";
         PubKeyResponse_EncryptionPubKeyHex := "02AB";
         PubKeyResponse_ExpirationTimestamp := None |}
    = ([Byte.x02], Some hex_ErrLength).
Proof.
  split; [|reflexivity].
  apply (proj1 (proj2 (proj2 (proj2
           (PubKeyResponse_keys_shape
              {| PubKeyResponse_SigningPubKeyHex := "02a";
                 PubKeyResponse_EncryptionPubKeyHex := "02AB";
                 PubKeyResponse_ExpirationTimestamp := None |}))))).
  reflexivity.
Defined.

(** ** protocol.go: the invoice request, field by field *)

Section MorePayRequest.
Context `{Extern}.

(** X15. [UnmarshalJSON] merges the document into its receiver. For a
    document with a well-formed amount field and no payer and payee data
    objects (entries of these names that are not objects are passed over
    without an error), decoding succeeds and changes exactly the fields the
    document has: the amount always, the sending currency code when the
    amount field carries one, the receiving currency code and the comment
    when "convert" and "comment" are strings; every other field, payer data
    included, keeps the value the receiver had. *)
Theorem PayRequest_UnmarshalJSON_merge (data : bytes) (rawReq : gmap string any)
    (p : PayRequest) (amount : Z) (code : option string) :
  json_Unmarshal_rawReq data = inr rawReq →
  int64_range amount →
  (∀ c, code = Some c → c ≠ "" ∧ contains_byte "." c = false) →
  as_string (rawReq !! "amount") = Some (spec_amount_field amount code) →
  as_map (rawReq !! "payerData") = None →
  as_map (rawReq !! "payeeData") = None →
  PayRequest_UnmarshalJSON data p
  = ({| PayRequest_SendingAmountCurrencyCode :=
          match code with
          | Some c => Some c
          | None => PayRequest_SendingAmountCurrencyCode p
          end;
        PayRequest_ReceivingCurrencyCode :=
          match as_string (rawReq !! "convert") with
          | Some convert => Some convert
          | None => PayRequest_ReceivingCurrencyCode p
          end;
        PayRequest_Amount := amount;
        PayRequest_PayerData := PayRequest_PayerData p;
        PayRequest_RequestedPayeeData := PayRequest_RequestedPayeeData p;
        PayRequest_Comment :=
          match as_string (rawReq !! "comment") with
          | Some comment => Some comment
          | None => PayRequest_Comment p
          end |}, Ok ()).
Proof.
  intros Hjson Hrange Hcode Hamount Hpayer Hpayee.
  rewrite PayRequest_UnmarshalJSON_unfold, Hjson, Hamount. cbv zeta.
  assert (Hrest : ∀ s,
    PayRequest_UnmarshalJSON_rest rawReq s
    = (match as_string (rawReq !! "comment") with
       | Some comment => set_Comment (Some comment) s
       | None => s
       end, Ok ())).
  { intros s. unfold PayRequest_UnmarshalJSON_rest. rewrite Hpayer, Hpayee.
    cbv [mbind stateful_bind mret stateful_ret st_modify].
    by destruct (as_string (rawReq !! "comment")). }
  destruct code as [c|]; unfold spec_amount_field.
  - destruct (Hcode c eq_refl) as [Hne Hdot].
    change ("." +:+ c) with (String "." c).
    rewrite strings_Split_app by apply FormatInt_no_dot.
    rewrite strings_Split_no_sep by done.
    rewrite ParseInt_FormatInt by done. rewrite Hrest.
    destruct c as [|c0 c]; [done|].
    change (0 <? String.length (String c0 c))%nat with true. cbv iota.
    by destruct (as_string (rawReq !! "convert")),
      (as_string (rawReq !! "comment")).
  - rewrite strings_Split_no_sep by apply FormatInt_no_dot.
    rewrite ParseInt_FormatInt by done. rewrite Hrest.
    by destruct (as_string (rawReq !! "convert")),
      (as_string (rawReq !! "comment")), p.
Qed.

(** X16. [MarshalJSON] writes the currency codes as they are, without the
    escaping of JSON: a sending currency code that goes on, after a quote,
    with the text of a "convert" entry gives byte for byte the document of
    the request that has this receiving currency code, so two different
    requests have the same encoding. *)
Theorem PayRequest_MarshalJSON_not_escaped (p : PayRequest)
    (code convert : string) :
  PayRequest_MarshalJSON
    (set_ReceivingCurrencyCode None
       (set_SendingAmountCurrencyCode
          (Some (code +:+ dquote +:+ "," +:+ newline +:+ tab +:+ tab
                      +:+ dquote +:+ "convert" +:+ dquote +:+ ": "
                      +:+ dquote +:+ convert)) p))
  = PayRequest_MarshalJSON
      (set_ReceivingCurrencyCode (Some convert)
         (set_SendingAmountCurrencyCode (Some code) p)).
Proof.
  unfold PayRequest_MarshalJSON.
  cbn [set_ReceivingCurrencyCode set_SendingAmountCurrencyCode
       PayRequest_SendingAmountCurrencyCode PayRequest_ReceivingCurrencyCode
       PayRequest_Amount PayRequest_PayerData PayRequest_RequestedPayeeData
       PayRequest_Comment].
  cbv [mbind outcome_mbind outcome_bind of_result].
  destruct (PayRequest_PayerData p) as [payerData|];
    [destruct (json_Marshal_PayerData payerData); [done|]|];
    (destruct (PayRequest_RequestedPayeeData p) as [payeeData|];
     [destruct (json_Marshal_CounterPartyDataOptions payeeData); [done|]|]);
    destruct (PayRequest_Comment p);
    do 2 f_equal; by rewrite !string_app_assoc.
Qed.

(** The outcome of [MarshalJSON] by what the two encoders return. *)
Lemma PayRequest_MarshalJSON_outcome (p : PayRequest) :
  match PayRequest_PayerData p with
  | Some payerData =>
      match json_Marshal_PayerData payerData with
      | inl err => PayRequest_MarshalJSON p = Err err
      | inr _ =>
          match PayRequest_RequestedPayeeData p with
          | Some payeeData =>
              match json_Marshal_CounterPartyDataOptions payeeData with
              | inl err => PayRequest_MarshalJSON p = Err err
              | inr _ => is_Ok (PayRequest_MarshalJSON p) = true
              end
          | None => is_Ok (PayRequest_MarshalJSON p) = true
          end
      end
  | None =>
      match PayRequest_RequestedPayeeData p with
      | Some payeeData =>
          match json_Marshal_CounterPartyDataOptions payeeData with
          | inl err => PayRequest_MarshalJSON p = Err err
          | inr _ => is_Ok (PayRequest_MarshalJSON p) = true
          end
      | None => is_Ok (PayRequest_MarshalJSON p) = true
      end
  end.
Proof.
  unfold PayRequest_MarshalJSON.
  cbv [mbind outcome_mbind outcome_bind of_result].
  destruct (PayRequest_PayerData p) as [payerData|];
    [destruct (json_Marshal_PayerData payerData) as [e1|o1]|];
    (destruct (PayRequest_RequestedPayeeData p) as [payeeData|];
     [destruct (json_Marshal_CounterPartyDataOptions payeeData) as [e2|o2]|]);
    reflexivity.
Qed.

(** X17. When [MarshalJSON] fails: it never panics, and it succeeds exactly
    when the payer data and the requested payee data that are present can
    be marshalled, so the amount, the currency codes and the comment never
    make it fail; when the payer data cannot be marshalled, the error
    returned is that of the payer data. *)
Theorem PayRequest_MarshalJSON_errors (p : PayRequest) :
  (∀ msg, PayRequest_MarshalJSON p ≠ Panic msg)
  ∧ (is_Ok (PayRequest_MarshalJSON p) = true
     ↔ (∀ payerData, PayRequest_PayerData p = Some payerData →
                     ∃ out, json_Marshal_PayerData payerData = inr out)
       ∧ (∀ payeeData, PayRequest_RequestedPayeeData p = Some payeeData →
                       ∃ out, json_Marshal_CounterPartyDataOptions payeeData
                              = inr out))
  ∧ (∀ (payerData : PayerData) (err : error),
        PayRequest_PayerData p = Some payerData →
        json_Marshal_PayerData payerData = inl err →
        PayRequest_MarshalJSON p = Err err).
Proof.
  pose proof (PayRequest_MarshalJSON_outcome p) as Hout.
  split; [|split].
  - intros msg Hpanic. rewrite Hpanic in Hout.
    destruct (PayRequest_PayerData p) as [payerData|];
      [destruct (json_Marshal_PayerData payerData) as [e1|o1]; [discriminate|]|];
      (destruct (PayRequest_RequestedPayeeData p) as [payeeData|];
       [destruct (json_Marshal_CounterPartyDataOptions payeeData) as [e2|o2]|]);
      discriminate.
  - destruct (PayRequest_PayerData p) as [payerData|];
      [destruct (json_Marshal_PayerData payerData) as [e1|o1] eqn:H1|];
      (destruct (PayRequest_RequestedPayeeData p) as [payeeData|];
       [destruct (json_Marshal_CounterPartyDataOptions payeeData)
          as [e2|o2] eqn:H2|]).
    all: first
      [ rewrite Hout; cbn [is_Ok]; split;
        [discriminate
        |intros [Hp Hq]; exfalso;
         first [destruct (Hp _ eq_refl) as [? Hx]; congruence
               |destruct (Hq _ eq_refl) as [? Hx]; congruence]]
      | split;
        [intros _; split; intros ? Hx;
         first [discriminate Hx | injection Hx as <-; eauto]
        |intros _; exact Hout] ].
  - intros payerData err Hpd Herr. by rewrite Hpd, Herr in Hout.
Qed.

End MorePayRequest.

(** X15 at a sample document, decoded into a receiver that has payer data
    and a sending currency code: the amount is replaced, the two stay. *)
Lemma PayRequest_UnmarshalJSON_merge_witness :
  PayRequest_UnmarshalJSON (Sample.doc1 "amount" "1000")
    (set_SendingAmountCurrencyCode (Some "EUR")
       Sample.request_unreadable_compliance)
  = (set_Amount 1000
       (set_SendingAmountCurrencyCode (Some "EUR")
          Sample.request_unreadable_compliance), Ok ()).
Proof.
  etransitivity.
  - apply (PayRequest_UnmarshalJSON_merge (H := Sample.extern)
             (Sample.doc1 "amount" "1000") {[ "amount" := any_string "1000" ]}
             (set_SendingAmountCurrencyCode (Some "EUR")
                Sample.request_unreadable_compliance)
             1000 None);
      try reflexivity; [unfold int64_range; lia | discriminate].
  - reflexivity.
Defined.

(** X17 at the sample request with payer data, which the sample encoder
    rejects, and at the request of 1000 USD, which has none. *)
Lemma PayRequest_MarshalJSON_errors_witness :
  PayRequest_MarshalJSON Sample.request_unreadable_compliance
  = Err (json_Error "not a sample document")
  ∧ is_Ok (PayRequest_MarshalJSON Sample.request_1000_USD) = true.
Proof.
  split.
  - destruct (PayRequest_MarshalJSON_errors (H := Sample.extern)
                Sample.request_unreadable_compliance) as (_ & _ & Herr).
    eapply Herr; reflexivity.
  - destruct (PayRequest_MarshalJSON_errors (H := Sample.extern)
                Sample.request_1000_USD) as (_ & Hok & _).
    apply Hok. split; intros ? [=].
Defined.

(** A sample invoice request of UMA: payer data with an identifier and a
    compliance block. *)
Lemma PayRequest_signable_iff_uma_witness :
  is_Ok (PayRequest_signablePayload
           (set_PayerData
              (Some {| Sample.identifier := Some "alice@vasp.com";
                       Sample.complianceData :=
                         inr (Some {| Sample.SignatureNonce := "abc";
                                      Sample.SignatureTimestamp := 1700000000 |}) |})
              PayRequest_zero)) = true.
Proof.
  apply (proj2 (PayRequest_signable_iff_uma (H := Sample.extern) _)).
  split; [reflexivity|]. intros payerData [= <-]. discriminate.
Defined.

(** X7 at a capability response without the UMA fields. *)
Lemma LnurlpResponse_upgrade_witness :
  LnurlpResponse_AsUmaResponse (H := Sample.extern)
    {| LnurlpResponse_Tag := "payRequest";
       LnurlpResponse_Callback := "https://vasp.com/callback";
       LnurlpResponse_MinSendable := 1;
       LnurlpResponse_MaxSendable := 1000;
       LnurlpResponse_EncodedMetadata := "[]";
       LnurlpResponse_Currencies := None;
       LnurlpResponse_RequiredPayerData := None;
       LnurlpResponse_Compliance := None;
       LnurlpResponse_UmaVersion := Some "1.0";
       LnurlpResponse_CommentCharsAllowed := None;
       LnurlpResponse_NostrPubkey := None;
       LnurlpResponse_AllowsNostr := None |}
  = Ok None.
Proof.
  apply (proj2 (proj2 (LnurlpResponse_upgrade (H := Sample.extern) _))).
  reflexivity.
Defined.
